(** * SelectionManager: cross-page selection persistence

    A shallow embedding of [src/utils/SelectionManager.ts] (class
    [SelectionManager]) together with the constants of
    [src/types/constants.ts] it reads, and the properties of the selection
    engine checked against it.

    Conventions of the embedding:
    - JavaScript numbers used as identifiers, page numbers and timestamps
      are integers ([Z]), which JavaScript computes with exactly as long as
      they stay below 2^53.  The count handed to [bulkSelect] is the one
      number the manager checks itself; it is a [number], which may also be
      a fraction or NaN.
    - A [Set<number>] is a [gset Z], a [Map<number, Set<number>>] is a
      [gmap Z (gset Z)]: membership, not insertion order, is what the
      manager observes.
    - [Date.now()] is an input: every method takes the clock readings it
      observes as arguments.
    - [localStorage] holds one entry (the manager only ever touches its own
      key).  The manager only looks at the stored text through [JSON.parse],
      so an entry is represented by what [JSON.parse] makes of it. *)

From Stdlib Require Import ZArith String Ascii List.
From Stdlib Require Import Decimal DecimalString DecimalPos DecimalZ.
From stdpp Require Import gmap strings list fin_maps fin_sets sorting.

Local Open Scope Z_scope.

#[local] Set Warnings "-clear-no-such-hyp".

(** ** Constants ([src/types/constants.ts]) *)

Module SELECTION_CONFIG.
Definition MAX_BULK_SELECTION : Z := 1000.
Definition STORAGE_EXPIRY_HOURS : Z := 24.
Definition DEBOUNCE_DELAY : Z := 300.
End SELECTION_CONFIG.

(** ** The JavaScript built-ins the manager relies on *)

Module JS.

(** [String(n)] for an integer [n]: the decimal numeral, with a leading
    minus sign for negative numbers, as JavaScript prints integers below
    10^21 (property keys of [Object.fromEntries] are made this way). *)
Definition Number_toString (n : Z) : string :=
  NilZero.string_of_int (Z.to_int n).

Definition digit_of (c : ascii) : option Z :=
  let n := Z.of_nat (nat_of_ascii c) in
  if bool_decide (48 ≤ n ≤ 57) then Some (n - 48) else None.

(** The longest prefix of decimal digits, read left to right; [acc] is
    [None] until a first digit has been seen. *)
Fixpoint scan_digits (s : string) (acc : option Z) : option Z :=
  match s with
  | EmptyString => acc
  | String c rest =>
      match digit_of c with
      | Some d => scan_digits rest (Some (10 * default 0 acc + d))
      | None => acc
      end
  end.

Definition is_white (c : ascii) : bool :=
  let n := nat_of_ascii c in
  bool_decide (n = 32 ∨ 9 ≤ n ≤ 13)%nat.

Fixpoint skip_white (s : string) : string :=
  match s with
  | String c rest => if is_white c then skip_white rest else s
  | EmptyString => s
  end.

(** [parseInt(s, 10)]: leading white space is skipped, an optional sign
    is read, then the longest run of digits; [None] stands for NaN. *)
Definition parseInt (s : string) : option Z :=
  match skip_white s with
  | String "-" rest => Z.opp <$> scan_digits rest None
  | String "+" rest => scan_digits rest None
  | body => scan_digits body None
  end.

(** [arr.slice(0, n)] for an integer [n]: a negative [n] counts from
    the end of the array. *)
Definition slice0 {A} (n : Z) (arr : list A) : list A :=
  if bool_decide (n < 0) then take (Z.to_nat (Z.of_nat (length arr) + n)) arr
  else take (Z.to_nat n) arr.

End JS.

(** A finite JavaScript number, as far as the manager can tell numbers
    apart: it compares the count with integers, subtracts integers from it
    and truncates it.  [NonInt b] is any number strictly between [b] and
    [b + 1]: [NonInt 0] is 0.5, for one, and [NonInt 2] is 2.5. *)
Inductive number :=
| Int (n : Z)
| NonInt (below : Z)
| NaN.

Module Num.

(** [x <= k] and [x > k] for an integer [k]; both are false for NaN. *)
Definition le (x : number) (k : Z) : bool :=
  match x with
  | Int n => bool_decide (n ≤ k)
  | NonInt b => bool_decide (b < k)
  | NaN => false
  end.

Definition gt (x : number) (k : Z) : bool :=
  match x with
  | Int n => bool_decide (n > k)
  | NonInt b => bool_decide (k ≤ b)
  | NaN => false
  end.

(** [x - k] for an integer [k]. *)
Definition sub (x : number) (k : Z) : number :=
  match x with
  | Int n => Int (n - k)
  | NonInt b => NonInt (b - k)
  | NaN => NaN
  end.

(** [ToIntegerOrInfinity(x)]: truncation towards zero, 0 for NaN. *)
Definition truncate (x : number) : Z :=
  match x with
  | Int n => n
  | NonInt b => if bool_decide (b < 0) then b + 1 else b
  | NaN => 0
  end.

End Num.

(** ** JSON values, as [JSON.parse] returns them *)

#[local] Set Warnings "-register-all".

Inductive json :=
| JNull
| JBool (b : bool)
| JNum (n : Z)
| JStr (s : string)
| JArr (items : list json)
| JObj (fields : list (string * json)).

(** An entry of [localStorage]: either a text [JSON.parse] rejects with a
    [SyntaxError] (the empty text is one), or a text it accepts, given by
    the value it yields.  For [JObj] the fields are listed in the order
    [Object.entries] enumerates them. *)
Inductive stored :=
| Unparseable (raw : string)
| Parsed (data : json).

Record LocalStorage := {
  item : option stored;
  (** [setItem] throws (quota exceeded, storage disabled) when set. *)
  quota_exceeded : bool;
}.

(** ** State of the manager ([src/types/state.ts]) *)

Record BulkInfo := {
  count : number;
  startPage : Z;
  timestamp : Z;
}.

Record SelectionManagerState := {
  selectedIds : gset Z;
  pageSelections : gmap Z (gset Z);
  totalSelected : Z;
  lastBulkSelection : option BulkInfo;
}.

(** The manager object together with the storage it writes to. *)
Record World := {
  state : SelectionManagerState;
  storage : LocalStorage;
}.

Definition set_state (f : SelectionManagerState → SelectionManagerState)
    (w : World) : World :=
  {| state := f (state w); storage := storage w |}.

(** ** Outcome of an expression that may throw

    [Throws] is a JavaScript exception (to be caught by the enclosing
    [try]).  [Untyped] marks a value that leaves the fragment of the
    language modelled here: a member of a set that is not an integer, a
    map key that is NaN, a coercion from a string to a number. *)

Inductive outcome (A : Type) :=
| Returns (a : A)
| Throws
| Untyped.
Arguments Returns {A} a.
Arguments Throws {A}.
Arguments Untyped {A}.

#[global] Instance outcome_bind : MBind outcome := λ A B k o,
  match o with
  | Returns a => k a
  | Throws => Throws
  | Untyped => Untyped
  end.

Fixpoint traverse {A B} (f : A → outcome B) (l : list A) : outcome (list B) :=
  match l with
  | [] => Returns []
  | a :: rest => b ← f a; bs ← traverse f rest; Returns (b :: bs)
  end.

Module Dyn.

(** [data.name] on a parsed value: reading a property of [null] throws a
    [TypeError]; on an object the property is looked up ([None] is
    [undefined]); numbers, booleans, strings and arrays have none of the
    properties the manager asks for. *)
Fixpoint assoc (name : string) (fields : list (string * json)) : option json :=
  match fields with
  | [] => None
  | (k, v) :: rest => if bool_decide (k = name) then Some v else assoc name rest
  end.

Definition get (data : json) (name : string) : outcome (option json) :=
  match data with
  | JNull => Throws
  | JObj fields => Returns (assoc name fields)
  | _ => Returns None
  end.

(** [ToNumber(v)]; [None] is NaN. *)
Definition toNumber (v : option json) : outcome (option Z) :=
  match v with
  | None => Returns None
  | Some JNull => Returns (Some 0)
  | Some (JBool b) => Returns (Some (if b then 1 else 0))
  | Some (JNum n) => Returns (Some n)
  | Some (JStr _) | Some (JArr _) | Some (JObj _) => Untyped
  end.

Definition as_number (v : json) : outcome Z :=
  match v with
  | JNum n => Returns n
  | _ => Untyped
  end.

(** [new Set(v)]: [undefined] and [null] give the empty set, an array
    gives the set of its elements, a string the set of its characters;
    anything else is not iterable and throws a [TypeError]. *)
Definition new_Set (v : option json) : outcome (gset Z) :=
  match v with
  | None | Some JNull => Returns ∅
  | Some (JArr items) => ids ← traverse as_number items; Returns (list_to_set ids)
  | Some (JStr s) => if bool_decide (s = EmptyString) then Returns ∅ else Untyped
  | Some (JNum _) | Some (JBool _) | Some (JObj _) => Throws
  end.

(** [Object.entries(v)]: throws on [undefined] and [null]; an array
    lists its elements under their indices, a string its characters. *)
Definition Object_entries (v : option json) : outcome (list (string * json)) :=
  match v with
  | None | Some JNull => Throws
  | Some (JObj fields) => Returns fields
  | Some (JArr items) =>
      Returns (imap (λ i x, (JS.Number_toString (Z.of_nat i), x)) items)
  | Some (JStr s) => if bool_decide (s = EmptyString) then Returns [] else Untyped
  | Some (JNum _) | Some (JBool _) => Returns []
  end.

(** [new Map(entries)]: a later entry replaces an earlier one with the
    same key. *)
Definition new_Map (entries : list (Z * gset Z)) : gmap Z (gset Z) :=
  foldl (λ m e, <[e.1 := e.2]> m) ∅ entries.

End Dyn.

(** ** The class [SelectionManager] *)

Definition empty_state : SelectionManagerState :=
  {| selectedIds := ∅; pageSelections := ∅;
     totalSelected := 0; lastBulkSelection := None |}.

(** *** Persistence *)

Definition storageKey : string := "artwork-table-selections".

Definition setItem (v : stored) (ls : LocalStorage) : option LocalStorage :=
  if quota_exceeded ls then None
  else Some {| item := Some v; quota_exceeded := quota_exceeded ls |}.

Definition removeItem (ls : LocalStorage) : LocalStorage :=
  {| item := None; quota_exceeded := quota_exceeded ls |}.

Definition ids_array (ids : gset Z) : json := JArr (JNum <$> elements ids).

Definition page_entry (e : Z * gset Z) : string * json :=
  (JS.Number_toString e.1, ids_array e.2).

(** The [StoredSelectionData] record built by [saveToStorage], after
    [JSON.stringify] and [JSON.parse].  The page keys are distinct, so the
    order in which the object lists them does not matter to the map
    [loadFromStorage] rebuilds. *)
Definition dataToStore (now : Z) (s : SelectionManagerState) : json :=
  JObj [ ("selectedIds"%string, ids_array (selectedIds s));
         ("pageSelections"%string,
            JObj (page_entry <$> map_to_list (pageSelections s)));
         ("totalSelected"%string, JNum (totalSelected s));
         ("timestamp"%string, JNum now) ].

(** [saveToStorage]: a failing [setItem] is caught and only logged. *)
Definition saveToStorage (now : Z) (w : World) : World :=
  match setItem (Parsed (dataToStore now (state w))) (storage w) with
  | Some ls => {| state := state w; storage := ls |}
  | None => w
  end.

Definition expiryTime : Z :=
  SELECTION_CONFIG.STORAGE_EXPIRY_HOURS * 60 * 60 * 1000.

(** [Date.now() - data.timestamp > expiryTime]; a comparison with NaN is
    false. *)
Definition expired (now : Z) (ts : option Z) : bool :=
  match ts with
  | Some t => bool_decide (now - t > expiryTime)
  | None => false
  end.

(** The callback [([page, ids]) => [parseInt(page, 10), new Set(ids)]]. *)
Definition restore_entry (e : string * json) : outcome (Z * gset Z) :=
  match JS.parseInt e.1 with
  | Some page => ids ← Dyn.new_Set (Some e.2); Returns (page, ids)
  | None => Untyped
  end.

(** The [catch] block of [loadFromStorage]: the entry is removed, whatever
    was assigned to the state before the exception stays. *)
Definition load_failed (w : World) : World :=
  {| state := state w; storage := removeItem (storage w) |}.

Definition with_selectedIds (ids : gset Z) (s : SelectionManagerState) :=
  {| selectedIds := ids; pageSelections := pageSelections s;
     totalSelected := totalSelected s; lastBulkSelection := lastBulkSelection s |}.

Definition with_pageSelections (pages : gmap Z (gset Z)) (s : SelectionManagerState) :=
  {| selectedIds := selectedIds s; pageSelections := pages;
     totalSelected := totalSelected s; lastBulkSelection := lastBulkSelection s |}.

Definition with_totalSelected (n : Z) (s : SelectionManagerState) :=
  {| selectedIds := selectedIds s; pageSelections := pageSelections s;
     totalSelected := n; lastBulkSelection := lastBulkSelection s |}.

Definition with_lastBulkSelection (b : option BulkInfo) (s : SelectionManagerState) :=
  {| selectedIds := selectedIds s; pageSelections := pageSelections s;
     totalSelected := totalSelected s; lastBulkSelection := b |}.

(** [loadFromStorage]; [None] when the stored value leads outside the
    modelled fragment.  The three assignments to [this.state] happen one
    after the other, each after its right-hand side has been evaluated. *)
Definition loadFromStorage (now : Z) (w : World) : option World :=
  match item (storage w) with
  | None => Some w
  | Some (Unparseable raw) =>
      if bool_decide (raw = EmptyString) then Some w else Some (load_failed w)
  | Some (Parsed data) =>
      match ts ← Dyn.get data "timestamp"; Dyn.toNumber ts with
      | Throws => Some (load_failed w)
      | Untyped => None
      | Returns ts =>
          if expired now ts then
            Some {| state := state w; storage := removeItem (storage w) |}
          else
            match v ← Dyn.get data "selectedIds"; Dyn.new_Set v with
            | Throws => Some (load_failed w)
            | Untyped => None
            | Returns ids =>
                let w1 := set_state (with_selectedIds ids) w in
                match v ← Dyn.get data "pageSelections";
                      entries ← Dyn.Object_entries v;
                      traverse restore_entry entries with
                | Throws => Some (load_failed w1)
                | Untyped => None
                | Returns entries =>
                    let w2 := set_state (with_pageSelections (Dyn.new_Map entries)) w1 in
                    match v ← Dyn.get data "totalSelected";
                          from_option Dyn.as_number Untyped v with
                    | Throws => Some (load_failed w2)
                    | Untyped => None
                    | Returns n => Some (set_state (with_totalSelected n) w2)
                    end
                end
            end
      end
  end.

(** [new SelectionManager()]: the empty state, then [loadFromStorage]. *)
Definition new_SelectionManager (now : Z) (ls : LocalStorage) : option World :=
  loadFromStorage now {| state := empty_state; storage := ls |}.

(** *** Selection *)

Definition updateTotalSelected (s : SelectionManagerState) : SelectionManagerState :=
  with_totalSelected (Z.of_nat (size (selectedIds s))) s.

Definition getPageSelections (pageNumber : Z) (s : SelectionManagerState) : gset Z :=
  default ∅ (pageSelections s !! pageNumber).

Definition isRowSelected (rowId : Z) (s : SelectionManagerState) : bool :=
  bool_decide (rowId ∈ selectedIds s).

Definition getTotalSelected (s : SelectionManagerState) : Z := totalSelected s.

Definition getAllSelectedIds (s : SelectionManagerState) : gset Z := selectedIds s.

Definition selectRow (now pageNumber rowId : Z) (w : World) : World :=
  let s := state w in
  let ids := {[rowId]} ∪ selectedIds s in
  let pages :=
    match pageSelections s !! pageNumber with
    | None => <[pageNumber := ∅]> (pageSelections s)
    | Some _ => pageSelections s
    end in
  let pages := alter (λ X, {[rowId]} ∪ X) pageNumber pages in
  saveToStorage now
    (set_state (λ s, updateTotalSelected
                       (with_pageSelections pages (with_selectedIds ids s))) w).

Definition deselectRow (now pageNumber rowId : Z) (w : World) : World :=
  let s := state w in
  let ids := selectedIds s ∖ {[rowId]} in
  let pages :=
    match pageSelections s !! pageNumber with
    | Some X =>
        let X' := X ∖ {[rowId]} in
        if bool_decide (size X' = 0%nat) then delete pageNumber (pageSelections s)
        else <[pageNumber := X']> (pageSelections s)
    | None => pageSelections s
    end in
  saveToStorage now
    (set_state (λ s, updateTotalSelected
                       (with_pageSelections pages (with_selectedIds ids s))) w).

Definition selectAllOnPage (now pageNumber : Z) (rowIds : list Z) (w : World) : World :=
  let s := state w in
  let ids := foldl (λ acc id, {[id]} ∪ acc) (selectedIds s) rowIds in
  let pages := <[pageNumber := list_to_set rowIds]> (pageSelections s) in
  saveToStorage now
    (set_state (λ s, updateTotalSelected
                       (with_pageSelections pages (with_selectedIds ids s))) w).

Definition deselectAllOnPage (now pageNumber : Z) (w : World) : World :=
  let s := state w in
  let s' :=
    match pageSelections s !! pageNumber with
    | Some X =>
        with_pageSelections (delete pageNumber (pageSelections s))
          (with_selectedIds (selectedIds s ∖ X) s)
    | None => s
    end in
  saveToStorage now (set_state (λ _, updateTotalSelected s') w).

Definition clearAllSelections (now : Z) (w : World) : World :=
  saveToStorage now (set_state (λ _, empty_state) w).

(** *** Bulk selection *)

(** What [await getPageData(page)] yields: the ids of the page, or an
    exception.  Within one run every page is requested at most once, so a
    function of the page number covers stateful fetchers too. *)
Inductive FetchResult :=
| Resolved (pageIds : list Z)
| Rejected (error : string).

Definition Fetcher := Z → FetchResult.

(** Why the [while] loop of [performBulkSelection] was left. *)
Inductive StopReason :=
| CountReached                        (* [remainingCount > 0] is false *)
| NoMoreData (page : Z)               (* [pageIds.length === 0]: break *)
| TooManyPages                        (* [currentPage > 1000]: console.warn, break *)
| FetchFailed (page : Z) (error : string)   (* catch: console.error, break *)
| OutOfFuel.                          (* the model's iteration budget ran out *)

Record BulkRun := {
  world : World;
  stop : StopReason;
  (** pages passed to [getPageData], in order *)
  fetched : list Z;
  (** the calls [selectAllOnPage(page, idsToSelect)] made, in order *)
  picked : list (Z * list Z);
  (** clock readings consumed *)
  reads : nat;
}.

Definition halt (r : StopReason) (w : World) : BulkRun :=
  {| world := w; stop := r; fetched := []; picked := []; reads := 0 |}.

Definition did_fetch (page : Z) (r : BulkRun) : BulkRun :=
  {| world := world r; stop := stop r; fetched := page :: fetched r;
     picked := picked r; reads := reads r |}.

Definition did_pick (page : Z) (ids : list Z) (r : BulkRun) : BulkRun :=
  {| world := world r; stop := stop r; fetched := fetched r;
     picked := (page, ids) :: picked r; reads := S (reads r) |}.

(** The [while (remainingCount > 0)] loop.  [clk] gives the readings of
    [Date.now()] still to come. *)
Fixpoint fetch_loop (fuel : nat) (clk : nat → Z) (getPageData : Fetcher)
    (remainingCount : number) (currentPage : Z) (w : World) : BulkRun :=
  if Num.gt remainingCount 0 then
    match fuel with
    | O => halt OutOfFuel w
    | S fuel =>
        match getPageData currentPage with
        | Rejected error =>
            did_fetch currentPage (halt (FetchFailed currentPage error) w)
        | Resolved pageIds =>
            if bool_decide (length pageIds = 0%nat) then
              did_fetch currentPage (halt (NoMoreData currentPage) w)
            else
              let idsToSelect := JS.slice0 (Num.truncate remainingCount) pageIds in
              let w' := selectAllOnPage (clk 0%nat) currentPage idsToSelect w in
              let remainingCount :=
                Num.sub remainingCount (Z.of_nat (length idsToSelect)) in
              let nextPage := currentPage + 1 in
              did_fetch currentPage (did_pick currentPage idsToSelect
                (if bool_decide (nextPage > 1000) then halt TooManyPages w'
                 else fetch_loop fuel (λ n, clk (S n)) getPageData
                        remainingCount nextPage w'))
        end
    end
  else halt CountReached w.

(** How the promise returned by an [async] function settles. *)
Inductive Promise :=
| Fulfilled
| RejectedWith (error : string).

(** A number of turns after which the loop has been left for sure: a
    turn that stays in the loop selects at least one id while one whole id
    is missing, and moves on to the next page, which must not pass 1000. *)
Definition turns_needed (remainingCount : number) (currentPage : Z) : nat :=
  match remainingCount with
  | Int n => Z.to_nat n
  | NonInt b => (Z.to_nat b + Z.to_nat (Z.max 1 (1001 - currentPage)))%nat
  | NaN => 0%nat
  end.

(** [performBulkSelection]: every [await] sits inside the [try], whose
    [catch] logs and leaves the loop, and [saveToStorage] does not throw:
    the promise is always fulfilled. *)
Definition performBulkSelection (clk : nat → Z) (startPage : Z) (count : number)
    (getPageData : Fetcher) (w : World) : BulkRun * Promise :=
  let meta := {| count := count; startPage := startPage; timestamp := clk 0%nat |} in
  let w := set_state (with_lastBulkSelection (Some meta)) w in
  let r := fetch_loop (turns_needed count startPage) (λ n, clk (S n)) getPageData
             count startPage w in
  ({| world := saveToStorage (clk (S (reads r))) (world r); stop := stop r;
      fetched := fetched r; picked := picked r; reads := S (S (reads r)) |},
   Fulfilled).

(** What a call of [bulkSelect] does: it throws the error
    [Invalid bulk selection count: ${count}], or returns a promise. *)
Inductive BulkResult :=
| ThrowsInvalidCount (count : number)
| ReturnsPromise (run : BulkRun) (settled : Promise).

Definition bulkSelect (clk : nat → Z) (startPage : Z) (count : number)
    (getPageData : Fetcher) (w : World) : BulkResult :=
  if Num.le count 0 || Num.gt count SELECTION_CONFIG.MAX_BULK_SELECTION then
    ThrowsInvalidCount count
  else
    let '(r, p) := performBulkSelection clk startPage count getPageData w in
    ReturnsPromise r p.

(** The world after a call of [bulkSelect], and the pages it requested. *)
Definition world_after (w : World) (r : BulkResult) : World :=
  match r with
  | ThrowsInvalidCount _ => w
  | ReturnsPromise run _ => world run
  end.

Definition pages_requested (r : BulkResult) : list Z :=
  match r with
  | ThrowsInvalidCount _ => []
  | ReturnsPromise run _ => fetched run
  end.

(** ** Sequences of mutating calls *)

Inductive Call :=
| SelectRow (now pageNumber rowId : Z)
| DeselectRow (now pageNumber rowId : Z)
| SelectAllOnPage (now pageNumber : Z) (rowIds : list Z)
| DeselectAllOnPage (now pageNumber : Z)
| BulkSelect (clk : nat → Z) (startPage : Z) (count : number) (getPageData : Fetcher)
| ClearAllSelections (now : Z).

Definition step (w : World) (c : Call) : World :=
  match c with
  | SelectRow now p id => selectRow now p id w
  | DeselectRow now p id => deselectRow now p id w
  | SelectAllOnPage now p ids => selectAllOnPage now p ids w
  | DeselectAllOnPage now p => deselectAllOnPage now p w
  | BulkSelect clk p n f => world_after w (bulkSelect clk p n f w)
  | ClearAllSelections now => clearAllSelections now w
  end.

Definition run_calls (w : World) (calls : list Call) : World :=
  foldl step w calls.

(** The manager as constructed when nothing is stored. *)
Definition fresh (ls : LocalStorage) : World :=
  {| state := empty_state; storage := ls |}.

(** * The rest of the manager, its helpers and its callers *)

(** ** [StoredSelectionData] as a typed record ([src/types/state.ts]) *)

Module Stored.
Record StoredSelectionData := {
  selectedIds : list Z;
  (** a [Record<number, number[]>]: one array per page number *)
  pageSelections : gmap Z (list Z);
  totalSelected : Z;
  timestamp : Z;
}.
End Stored.

(** What [JSON.parse(JSON.stringify(data))] gives for a typed record. *)
Definition record_json (d : Stored.StoredSelectionData) : json :=
  JObj [ ("selectedIds"%string, JArr (JNum <$> Stored.selectedIds d));
         ("pageSelections"%string,
            JObj ((λ e, (JS.Number_toString e.1, JArr (JNum <$> e.2)))
                    <$> map_to_list (Stored.pageSelections d)));
         ("totalSelected"%string, JNum (Stored.totalSelected d));
         ("timestamp"%string, JNum (Stored.timestamp d)) ].

(** [Object.entries] of a record keyed by numbers: the keys come back as
    strings. *)
Definition Object_entries_record {A} (r : gmap Z A) : list (string * A) :=
  (λ e, (JS.Number_toString e.1, e.2)) <$> map_to_list r.


(** [importState]: unlike [loadFromStorage] it has no [try], checks no
    expiry and leaves [lastBulkSelection] alone.  [None] would be a page
    key that [parseInt] reads as NaN. *)
Definition importState (now : Z) (data : Stored.StoredSelectionData) (w : World)
    : option World :=
  entries ← mapM (λ e, page ← JS.parseInt e.1; Some (page, list_to_set e.2))
                 (Object_entries_record (Stored.pageSelections data));
  Some (saveToStorage now
          (set_state (λ s, with_totalSelected (Stored.totalSelected data)
                             (with_pageSelections (Dyn.new_Map entries)
                                (with_selectedIds
                                   (list_to_set (Stored.selectedIds data)) s)))
             w)).

(** [getSelectionStats] *)
Record SelectionStats := {
  stats_totalSelected : Z;
  pagesWithSelections : nat;
  stats_lastBulkSelection : option BulkInfo;
}.

Definition getSelectionStats (s : SelectionManagerState) : SelectionStats :=
  {| stats_totalSelected := totalSelected s;
     pagesWithSelections := size (pageSelections s);
     stats_lastBulkSelection := lastBulkSelection s |}.

(** ** Helpers ([src/utils/helpers.ts]) *)

Module Artwork.
Record ArtworkItem := {
  id : Z;
  title : string;
  place_of_origin : string;
  artist_display : string;
  inscriptions : string;
  date_start : Z;
  date_end : Z;
}.
End Artwork.

(** [x || fallback] for a string [x]: the empty string is falsy. *)
Definition or_else (x fallback : string) : string :=
  if bool_decide (x = EmptyString) then fallback else x.

(** [formatArtworkField]; [None] is [null] or [undefined]. *)
Definition formatArtworkField (value : option string) : string :=
  match value with
  | None => "N/A"
  | Some v => if bool_decide (v = EmptyString) then "N/A" else v
  end.

(** [formatDateRange]; [None] is [null]. *)
Definition formatDateRange (dateStart dateEnd : option Z) : string :=
  match dateStart, dateEnd with
  | None, None => "Unknown"
  | _, _ =>
      if bool_decide (dateStart = dateEnd) then
        from_option (λ n, or_else (JS.Number_toString n) "Unknown") "Unknown"
          dateStart
      else
        let start :=
          from_option (λ n, or_else (JS.Number_toString n) "?") "?" dateStart in
        let end_ :=
          from_option (λ n, or_else (JS.Number_toString n) "?") "?" dateEnd in
        start +:+ " - " +:+ end_
  end.

(** [truncateText]: [substring(0, n)] takes a negative [n] for 0. *)
Definition truncateText (text : string) (maxLength : Z) : string :=
  if bool_decide (Z.of_nat (String.length text) ≤ maxLength) then text
  else substring 0 (Z.to_nat (maxLength - 3)) text +:+ "...".

(** [getArtworkKey] *)
Definition getArtworkKey (artwork : Artwork.ArtworkItem) : string :=
  "artwork-" +:+ JS.Number_toString (Artwork.id artwork).

(** [getPageRange]: [Math.floor(maxVisible / 2)] is [maxVisible `div` 2];
    the [for] loop pushes [start], [start + 1], ..., [end]. *)
Definition getPageRange (currentPage totalPages maxVisible : Z) : list Z :=
  let half := maxVisible `div` 2 in
  let start := Z.max 1 (currentPage - half) in
  let end_ := Z.min totalPages (start + maxVisible - 1) in
  let start :=
    if bool_decide (end_ - start + 1 < maxVisible)
    then Z.max 1 (end_ - maxVisible + 1) else start in
  seqZ start (end_ - start + 1).

(** The order of the default comparator of [Array.prototype.sort]: the
    elements are compared as strings, code unit by code unit. *)
Definition sorts_before (a b : Z) : Prop :=
  String.leb (JS.Number_toString a) (JS.Number_toString b) = true.

#[global] Instance sorts_before_dec a b : Decision (sorts_before a b).
Proof. unfold sorts_before. apply _. Defined.

(** [ids.sort()]: the sorted arrangement of the array.  The order is
    total and two ids that compare equal are the same number, so every
    sorting algorithm gives this result. *)
Definition Array_sort (ids : list Z) : list Z := merge_sort sorts_before ids.

(** [arr.every((x, index) => p(x, index))] *)
Fixpoint every_from {A} (index : nat) (p : A → nat → bool) (arr : list A) : bool :=
  match arr with
  | [] => true
  | x :: rest => p x index && every_from (S index) p rest
  end.

(** [areArtworkArraysEqual]; [ids2[index]] is [undefined] out of range,
    which is [===] to no id. *)
Definition areArtworkArraysEqual (arr1 arr2 : list Artwork.ArtworkItem) : bool :=
  if bool_decide (length arr1 ≠ length arr2) then false
  else
    let ids1 := Array_sort (Artwork.id <$> arr1) in
    let ids2 := Array_sort (Artwork.id <$> arr2) in
    every_from 0 (λ id index, bool_decide (ids2 !! index = Some id)) ids1.

(** ** The hooks ([src/utils/useSelection.ts])

    The callbacks act on the singleton manager and on the hook's own React
    state; a session pairs the two. *)

Record HookState := {
  selectedRows : list Artwork.ArtworkItem;
  selectedCount : Z;
}.

Record Session := {
  manager : World;
  view : HookState;
}.

Definition setSelectedCount (n : Z) (u : Session) : Session :=
  {| manager := manager u;
     view := {| selectedRows := selectedRows (view u); selectedCount := n |} |}.

Definition setSelectedRows (rows : list Artwork.ArtworkItem) (u : Session) : Session :=
  {| manager := manager u;
     view := {| selectedRows := rows; selectedCount := selectedCount (view u) |} |}.

Definition on_manager (f : World → World) (u : Session) : Session :=
  {| manager := f (manager u); view := view u |}.

(** After a call the hook copies [getTotalSelected()] into its state. *)
Definition refresh_count (u : Session) : Session :=
  setSelectedCount (getTotalSelected (state (manager u))) u.

(** What the hook's [bulkSelect] promise does. *)
Inductive HookBulkResult :=
| BulkRejected (count : number)
| BulkResolved.

(** The callbacks of [useSelection()]: every one of them works on page 1. *)
Module useSelection.

Definition isRowSelected (artwork : Artwork.ArtworkItem) (u : Session) : bool :=
  isRowSelected (Artwork.id artwork) (state (manager u)).

Definition selectRow (now : Z) (artwork : Artwork.ArtworkItem) (u : Session) : Session :=
  refresh_count (on_manager (selectRow now 1 (Artwork.id artwork)) u).

Definition deselectRow (now : Z) (artwork : Artwork.ArtworkItem) (u : Session) : Session :=
  refresh_count (on_manager (deselectRow now 1 (Artwork.id artwork)) u).

Definition selectAll (now : Z) (artworks : list Artwork.ArtworkItem) (u : Session)
    : Session :=
  refresh_count (on_manager (selectAllOnPage now 1 (Artwork.id <$> artworks)) u).

Definition deselectAll (now : Z) (u : Session) : Session :=
  setSelectedCount 0 (setSelectedRows [] (on_manager (clearAllSelections now) u)).

(** The page fetcher is a placeholder that finds every page empty. *)
Definition getPageData : Fetcher := λ _, Resolved [].

Definition bulkSelect (clk : nat → Z) (count : number) (u : Session)
    : Session * HookBulkResult :=
  match bulkSelect clk 1 count getPageData (manager u) with
  | ThrowsInvalidCount c => (u, BulkRejected c)
  | ReturnsPromise r _ =>
      (refresh_count (on_manager (λ _, world r) u), BulkResolved)
  end.

Definition clearSelections (now : Z) (u : Session) : Session :=
  setSelectedCount 0 (setSelectedRows [] (on_manager (clearAllSelections now) u)).

End useSelection.

(** The callbacks [useSelectionWithPage(currentPage)] adds or replaces:
    each calls the manager for the current page and then the callback of
    [useSelection()]. *)
Module useSelectionWithPage.

Definition getPageSelections (currentPage : Z) (u : Session) : gset Z :=
  getPageSelections currentPage (state (manager u)).

Definition selectAllOnCurrentPage (currentPage now now' : Z)
    (artworks : list Artwork.ArtworkItem) (u : Session) : Session :=
  useSelection.selectAll now' artworks
    (on_manager (selectAllOnPage now currentPage (Artwork.id <$> artworks)) u).

Definition deselectAllOnCurrentPage (currentPage now now' : Z) (u : Session)
    : Session :=
  useSelection.deselectAll now'
    (on_manager (deselectAllOnPage now currentPage) u).

Definition selectRow (currentPage now now' : Z) (artwork : Artwork.ArtworkItem)
    (u : Session) : Session :=
  useSelection.selectRow now' artwork
    (on_manager (selectRow now currentPage (Artwork.id artwork)) u).

Definition deselectRow (currentPage now now' : Z) (artwork : Artwork.ArtworkItem)
    (u : Session) : Session :=
  useSelection.deselectRow now' artwork
    (on_manager (deselectRow now currentPage (Artwork.id artwork)) u).

End useSelectionWithPage.

(** ** The table's selection handlers ([src/components/ArtworkTable.tsx]) *)

Module ArtworkTable.

(** The fields of [ArtworkTableState] that the selection handlers read or
    write; [setState(prev => ({ ...prev, ... }))] carries the others
    over. *)
Record ArtworkTableState := {
  artworks : list Artwork.ArtworkItem;
  currentPage : Z;
  selectedArtworks : list Artwork.ArtworkItem;
}.

Definition setSelectedArtworks (rows : list Artwork.ArtworkItem)
    (t : ArtworkTableState) : ArtworkTableState :=
  {| artworks := artworks t; currentPage := currentPage t;
     selectedArtworks := rows |}.

(** [!list.find(selected => selected.id === item.id)] *)
Definition not_found (item : Artwork.ArtworkItem) (list : list Artwork.ArtworkItem)
    : bool :=
  match List.find (λ selected, bool_decide (Artwork.id selected = Artwork.id item))
          list with
  | Some _ => false
  | None => true
  end.

(** [items.forEach(f)] for a callback of [useSelectionWithPage], which
    makes two calls of the manager, each reading the clock once: [clk k]
    is the reading number [k] since the handler started. *)
Fixpoint forEach_timed (f : Z → Z → Artwork.ArtworkItem → Session → Session)
    (clk : nat → Z) (k : nat) (items : list Artwork.ArtworkItem) (u : Session)
    : Session :=
  match items with
  | [] => u
  | item :: rest => forEach_timed f clk (S (S k)) rest (f (clk k) (clk (S k)) item u)
  end.

(** [handleSelectionChange({ value })] *)
Definition handleSelectionChange (clk : nat → Z) (value : list Artwork.ArtworkItem)
    (t : ArtworkTableState) (u : Session) : ArtworkTableState * Session :=
  let newSelection := value in
  let currentSelection := selectedArtworks t in
  let newlySelected :=
    List.filter (λ item, not_found item currentSelection) newSelection in
  let newlyDeselected :=
    List.filter (λ item, not_found item newSelection) currentSelection in
  let u :=
    forEach_timed (useSelectionWithPage.selectRow (currentPage t)) clk 0
      newlySelected u in
  let u :=
    forEach_timed (useSelectionWithPage.deselectRow (currentPage t)) clk
      (2 * length newlySelected) newlyDeselected u in
  (setSelectedArtworks newSelection t, u).

(** [handleSelectAll()] *)
Definition handleSelectAll (now now' : Z) (t : ArtworkTableState) (u : Session)
    : ArtworkTableState * Session :=
  let allSelected :=
    bool_decide (length (selectedArtworks t) = length (artworks t)) in
  if allSelected then
    (setSelectedArtworks [] t,
     useSelectionWithPage.deselectAllOnCurrentPage (currentPage t) now now' u)
  else
    (setSelectedArtworks (artworks t) t,
     useSelectionWithPage.selectAllOnCurrentPage (currentPage t) now now'
       (artworks t) u).

End ArtworkTable.

(** * Notions used to state the properties *)

(** ** Runs of the fetch loop *)

(** [count <= 0 || count > MAX_BULK_SELECTION], read on the number. *)
Definition out_of_range (c : number) : Prop :=
  match c with
  | Int n => n ≤ 0 ∨ n > SELECTION_CONFIG.MAX_BULK_SELECTION
  | NonInt b => b < 0 ∨ SELECTION_CONFIG.MAX_BULK_SELECTION ≤ b
  | NaN => False
  end.

Definition picked_total (r : BulkRun) : nat :=
  sum_list ((λ e, length e.2) <$> picked r).

(** A call that throws instead of changing anything: a bulk selection
    whose count the guard rejects. *)
Definition rejected (c : Call) : Prop :=
  match c with
  | BulkSelect _ _ n _ => out_of_range n
  | _ => False
  end.


(** ** Invariants of the selection state *)

(** The union over all pages [p] of [pageSelections[p]]. *)
Definition union_of_pages (s : SelectionManagerState) : gset Z :=
  ⋃ (map_to_list (pageSelections s)).*2.

Definition selection_consistent (s : SelectionManagerState) : Prop :=
  selectedIds s = union_of_pages s.

Definition pages_within_selected (s : SelectionManagerState) : Prop :=
  ∀ p X id, pageSelections s !! p = Some X → id ∈ X → id ∈ selectedIds s.

Definition selected_within_pages (s : SelectionManagerState) : Prop :=
  ∀ id, id ∈ selectedIds s → ∃ p X, pageSelections s !! p = Some X ∧ id ∈ X.

Definition total_is_size (s : SelectionManagerState) : Prop :=
  getTotalSelected s = Z.of_nat (size (selectedIds s)).

(** The call recomputes the total: it reaches [updateTotalSelected], or
    it is [clearAllSelections], which installs the total 0 with the empty
    set.  Every call does, except a bulk selection that throws or leaves
    the loop before its first [selectAllOnPage]. *)
Definition recomputes_total (w : World) (c : Call) : bool :=
  match c with
  | BulkSelect clk p n f =>
      match bulkSelect clk p n f w with
      | ThrowsInvalidCount _ => false
      | ReturnsPromise r _ => bool_decide (picked r ≠ [])
      end
  | _ => true
  end.

(** Some call of the sequence recomputes the total. *)
Fixpoint total_recomputed (w : World) (calls : list Call) : bool :=
  match calls with
  | [] => false
  | c :: calls => recomputes_total w c || total_recomputed (step w c) calls
  end.

(** No page entry holds the empty set. *)
Definition no_empty_page (s : SelectionManagerState) : Prop :=
  ∀ p X, pageSelections s !! p = Some X → X ≠ ∅.

(** The call hands no empty list to [selectAllOnPage]: not directly, and
    not through a bulk selection with a fractional count. *)
Definition fills_pages (c : Call) : Prop :=
  match c with
  | SelectAllOnPage _ _ ids => ids ≠ []
  | BulkSelect _ _ (NonInt _) _ => False
  | _ => True
  end.

(** *** The conditions under which a call keeps the two structures in step *)

(** [id] is selected on no page other than [p]. *)
Definition on_no_other_page (p id : Z) (s : SelectionManagerState) : Prop :=
  map_Forall (λ q X, q = p ∨ id ∉ X) (pageSelections s).

(** No id selected on page [p] is selected on another page as well. *)
Definition page_disjoint_from_others (p : Z) (s : SelectionManagerState) : Prop :=
  map_Forall (λ q X, q = p ∨ X ## getPageSelections p s) (pageSelections s).

(** The list handed to [selectAllOnPage] contains everything currently
    selected on the page. *)
Definition covers_page (p : Z) (ids : list Z) (s : SelectionManagerState) : Prop :=
  getPageSelections p s ⊆ list_to_set ids.

#[global] Instance on_no_other_page_dec p id s : Decision (on_no_other_page p id s).
Proof. unfold on_no_other_page. apply _. Defined.

#[global] Instance page_disjoint_from_others_dec p s :
  Decision (page_disjoint_from_others p s).
Proof. unfold page_disjoint_from_others. apply _. Defined.

#[global] Instance covers_page_dec p ids s : Decision (covers_page p ids s).
Proof. unfold covers_page. apply _. Defined.

Definition call_allowed (w : World) (c : Call) : bool :=
  match c with
  | SelectRow _ _ _ | ClearAllSelections _ => true
  | DeselectRow _ p id => bool_decide (on_no_other_page p id (state w))
  | SelectAllOnPage _ p ids => bool_decide (covers_page p ids (state w))
  | DeselectAllOnPage _ p => bool_decide (page_disjoint_from_others p (state w))
  | BulkSelect clk p n f =>
      match bulkSelect clk p n f w with
      | ThrowsInvalidCount _ => true
      | ReturnsPromise r _ =>
          forallb (λ e, bool_decide (covers_page e.1 e.2 (state w))) (picked r)
      end
  end.

Fixpoint disciplined (w : World) (calls : list Call) : bool :=
  match calls with
  | [] => true
  | c :: calls => call_allowed w c && disciplined (step w c) calls
  end.

(** ** Decimal numerals *)

(** The value of a numeral read left to right from [acc]. *)
Fixpoint uint_value (d : uint) (acc : Z) : Z :=
  match d with
  | Nil => acc
  | D0 d => uint_value d (10 * acc + 0)
  | D1 d => uint_value d (10 * acc + 1)
  | D2 d => uint_value d (10 * acc + 2)
  | D3 d => uint_value d (10 * acc + 3)
  | D4 d => uint_value d (10 * acc + 4)
  | D5 d => uint_value d (10 * acc + 5)
  | D6 d => uint_value d (10 * acc + 6)
  | D7 d => uint_value d (10 * acc + 7)
  | D8 d => uint_value d (10 * acc + 8)
  | D9 d => uint_value d (10 * acc + 9)
  end.

(** ** Sample data *)

Definition empty_storage : LocalStorage :=
  {| item := None; quota_exceeded := false |}.

Definition sample_fetcher : Fetcher := λ page,
  if bool_decide (page = 1) then Resolved [1; 2; 3; 4; 5]
  else if bool_decide (page = 2) then Resolved [6; 7; 8]
  else Resolved [].

Definition sample_clock : nat → Z := λ n, 1000 + Z.of_nat n.

Definition sample_calls : list Call :=
  [ SelectRow 10 1 2; SelectAllOnPage 20 3 [30; 31]; DeselectRow 30 3 30;
    BulkSelect sample_clock 1 (Int 7) sample_fetcher; DeselectAllOnPage 2000 2;
    DeselectRow 2010 3 31 ].


Definition failing_fetcher : Fetcher := λ page,
  if bool_decide (page = 1) then Resolved [1; 2; 3]
  else Rejected "network down".

(** The text [{"selectedIds":[1,2,3],"timestamp":4000}]: a record without
    [pageSelections] and [totalSelected]. *)
Definition truncated_record : json :=
  JObj [ ("selectedIds"%string, JArr [JNum 1; JNum 2; JNum 3]);
         ("timestamp"%string, JNum 4000) ].

(** A typed record with repeated ids and a total that does not match. *)
Definition sample_record : Stored.StoredSelectionData :=
  {| Stored.selectedIds := [7; 8; 7];
     Stored.pageSelections := {[ 2 := [7; 7]; 3 := [8] ]};
     Stored.totalSelected := 40;
     Stored.timestamp := 1000 |}.

(** A table on page 2 showing artworks 1, 2 and 3, the first two of them
    selected, over a manager that also holds artwork 9 on page 3. *)
Definition sample_artwork (n : Z) : Artwork.ArtworkItem :=
  {| Artwork.id := n; Artwork.title := "Untitled";
     Artwork.place_of_origin := "Chicago"; Artwork.artist_display := "Unknown";
     Artwork.inscriptions := EmptyString;
     Artwork.date_start := 1900; Artwork.date_end := 1901 |}.

Definition sample_table : ArtworkTable.ArtworkTableState :=
  {| ArtworkTable.artworks := sample_artwork <$> [1; 2; 3];
     ArtworkTable.currentPage := 2;
     ArtworkTable.selectedArtworks := sample_artwork <$> [1; 2] |}.

Definition sample_session : Session :=
  {| manager := run_calls (fresh empty_storage)
                  [SelectAllOnPage 10 2 [1; 2]; SelectRow 11 3 9];
     view := {| selectedRows := []; selectedCount := 3 |} |}.

(** A page without rows, reached while artwork 9 is selected on page 3. *)
Definition empty_table : ArtworkTable.ArtworkTableState :=
  {| ArtworkTable.artworks := [];
     ArtworkTable.currentPage := 5;
     ArtworkTable.selectedArtworks := [] |}.

Ltac refold_fmap := change (list_fmap _ _ ?f ?l) with (f <$> l).

(** * Properties *)

(** ** Basic equations *)

Lemma state_saveToStorage now w : state (saveToStorage now w) = state w.
Proof. unfold saveToStorage. by destruct (setItem _ _). Qed.

Lemma foldl_add_ids (X : gset Z) (l : list Z) :
  foldl (λ acc id, {[id]} ∪ acc) X l = list_to_set l ∪ X.
Proof.
  revert X. induction l as [|a l IH]; intros X; simpl.
  - set_solver.
  - rewrite IH. set_solver.
Qed.

Lemma selectedIds_selectRow now p id w :
  selectedIds (state (selectRow now p id w)) = {[id]} ∪ selectedIds (state w).
Proof. unfold selectRow. by rewrite state_saveToStorage. Qed.

Lemma pageSelections_selectRow now p id w :
  pageSelections (state (selectRow now p id w))
  = <[p := {[id]} ∪ getPageSelections p (state w)]> (pageSelections (state w)).
Proof.
  unfold selectRow, getPageSelections. rewrite state_saveToStorage. simpl.
  apply map_eq. intros q. destruct (decide (q = p)) as [->|Hne].
  - rewrite lookup_insert_eq.
    destruct (pageSelections (state w) !! p) as [X|] eqn:E; simpl.
    + by rewrite lookup_alter_eq, E.
    + rewrite lookup_alter_eq, lookup_insert_eq. simpl. done.
  - rewrite lookup_insert_ne by done.
    destruct (pageSelections (state w) !! p) as [X|] eqn:E; simpl.
    + by rewrite lookup_alter_ne.
    + rewrite lookup_alter_ne by done. by rewrite lookup_insert_ne.
Qed.

Lemma totalSelected_selectRow now p id w :
  totalSelected (state (selectRow now p id w))
  = Z.of_nat (size (selectedIds (state (selectRow now p id w)))).
Proof. unfold selectRow. by rewrite state_saveToStorage. Qed.

Lemma lastBulkSelection_selectRow now p id w :
  lastBulkSelection (state (selectRow now p id w)) = lastBulkSelection (state w).
Proof. unfold selectRow. by rewrite state_saveToStorage. Qed.

Lemma state_ext (s1 s2 : SelectionManagerState) :
  selectedIds s1 = selectedIds s2 →
  pageSelections s1 = pageSelections s2 →
  totalSelected s1 = totalSelected s2 →
  lastBulkSelection s1 = lastBulkSelection s2 →
  s1 = s2.
Proof. destruct s1, s2. simpl. by intros -> -> -> ->. Qed.

Lemma selectedIds_deselectRow now p id w :
  selectedIds (state (deselectRow now p id w)) = selectedIds (state w) ∖ {[id]}.
Proof. unfold deselectRow. by rewrite state_saveToStorage. Qed.

Lemma pageSelections_deselectRow now p id w :
  pageSelections (state (deselectRow now p id w))
  = match pageSelections (state w) !! p with
    | Some X =>
        if bool_decide (size (X ∖ {[id]}) = 0%nat)
        then delete p (pageSelections (state w))
        else <[p := X ∖ {[id]}]> (pageSelections (state w))
    | None => pageSelections (state w)
    end.
Proof. unfold deselectRow. by rewrite state_saveToStorage. Qed.

Lemma selectedIds_selectAllOnPage now p ids w :
  selectedIds (state (selectAllOnPage now p ids w))
  = list_to_set ids ∪ selectedIds (state w).
Proof.
  unfold selectAllOnPage. rewrite state_saveToStorage. simpl.
  apply foldl_add_ids.
Qed.

Lemma pageSelections_selectAllOnPage now p ids w :
  pageSelections (state (selectAllOnPage now p ids w))
  = <[p := list_to_set ids]> (pageSelections (state w)).
Proof. unfold selectAllOnPage. by rewrite state_saveToStorage. Qed.

Lemma totalSelected_selectAllOnPage now p ids w :
  totalSelected (state (selectAllOnPage now p ids w))
  = Z.of_nat (size (selectedIds (state (selectAllOnPage now p ids w)))).
Proof. unfold selectAllOnPage. by rewrite state_saveToStorage. Qed.

Lemma lastBulkSelection_selectAllOnPage now p ids w :
  lastBulkSelection (state (selectAllOnPage now p ids w))
  = lastBulkSelection (state w).
Proof. unfold selectAllOnPage. by rewrite state_saveToStorage. Qed.

Lemma selectedIds_deselectAllOnPage now p w :
  selectedIds (state (deselectAllOnPage now p w))
  = selectedIds (state w) ∖ getPageSelections p (state w).
Proof.
  unfold deselectAllOnPage, getPageSelections. rewrite state_saveToStorage. simpl.
  destruct (pageSelections (state w) !! p); simpl; set_solver.
Qed.

Lemma pageSelections_deselectAllOnPage now p w :
  pageSelections (state (deselectAllOnPage now p w))
  = delete p (pageSelections (state w)).
Proof.
  unfold deselectAllOnPage. rewrite state_saveToStorage. simpl.
  destruct (pageSelections (state w) !! p) eqn:E; simpl; [done|].
  by rewrite delete_id.
Qed.

Lemma state_clearAllSelections now w :
  state (clearAllSelections now w) = empty_state.
Proof. unfold clearAllSelections. by rewrite state_saveToStorage. Qed.

Lemma elem_of_getPageSelections id p s :
  id ∈ getPageSelections p s ↔ ∃ X, pageSelections s !! p = Some X ∧ id ∈ X.
Proof.
  unfold getPageSelections. destruct (pageSelections s !! p) as [X|]; simpl.
  - naive_solver.
  - split; [set_solver|]. by intros (X & ? & _).
Qed.

(** ** The fetch loop *)

Lemma quota_saveToStorage now w :
  quota_exceeded (storage (saveToStorage now w)) = quota_exceeded (storage w).
Proof.
  unfold saveToStorage, setItem. by destruct (quota_exceeded (storage w)) eqn:E.
Qed.

Lemma item_saveToStorage now w :
  quota_exceeded (storage w) = false →
  item (storage (saveToStorage now w)) = Some (Parsed (dataToStore now (state w))).
Proof. intros E. unfold saveToStorage, setItem. by rewrite E. Qed.

Lemma quota_selectAllOnPage now p ids w :
  quota_exceeded (storage (selectAllOnPage now p ids w))
  = quota_exceeded (storage w).
Proof. unfold selectAllOnPage. by rewrite quota_saveToStorage. Qed.

Section fetch_loop.
Context (getPageData : Fetcher).

(** Induction following the branches of [fetch_loop]. *)
Lemma fetch_loop_ind
    (P : nat → (nat → Z) → number → Z → World → BulkRun → Prop) :
  (∀ fuel clk rem page w,
      Num.gt rem 0 = false → P fuel clk rem page w (halt CountReached w)) →
  (∀ clk rem page w,
      Num.gt rem 0 = true → P O clk rem page w (halt OutOfFuel w)) →
  (∀ fuel clk rem page w error,
      Num.gt rem 0 = true → getPageData page = Rejected error →
      P (S fuel) clk rem page w
        (did_fetch page (halt (FetchFailed page error) w))) →
  (∀ fuel clk rem page w pageIds,
      Num.gt rem 0 = true → getPageData page = Resolved pageIds →
      length pageIds = 0%nat →
      P (S fuel) clk rem page w (did_fetch page (halt (NoMoreData page) w))) →
  (∀ fuel clk rem page w pageIds,
      Num.gt rem 0 = true → getPageData page = Resolved pageIds →
      length pageIds ≠ 0%nat → page + 1 > 1000 →
      let sel := JS.slice0 (Num.truncate rem) pageIds in
      P (S fuel) clk rem page w
        (did_fetch page (did_pick page sel
           (halt TooManyPages (selectAllOnPage (clk 0%nat) page sel w))))) →
  (∀ fuel clk rem page w pageIds r,
      Num.gt rem 0 = true → getPageData page = Resolved pageIds →
      length pageIds ≠ 0%nat → ¬ page + 1 > 1000 →
      let sel := JS.slice0 (Num.truncate rem) pageIds in
      let w' := selectAllOnPage (clk 0%nat) page sel w in
      r = fetch_loop fuel (λ n, clk (S n)) getPageData
            (Num.sub rem (Z.of_nat (length sel))) (page + 1) w' →
      P fuel (λ n, clk (S n)) (Num.sub rem (Z.of_nat (length sel)))
        (page + 1) w' r →
      P (S fuel) clk rem page w (did_fetch page (did_pick page sel r))) →
  ∀ fuel clk rem page w,
    P fuel clk rem page w (fetch_loop fuel clk getPageData rem page w).
Proof.
  intros Hdone Hfuel Hfail Hempty Hmany Hstep.
  induction fuel as [|fuel IH]; intros clk rem page w; simpl.
  - destruct (Num.gt rem 0) eqn:Hrem; [by apply Hfuel | by apply Hdone].
  - destruct (Num.gt rem 0) eqn:Hrem; [|by apply Hdone].
    destruct (getPageData page) as [pageIds|error] eqn:E; [|by apply Hfail].
    case_bool_decide; [by eapply Hempty|].
    case_bool_decide; [by eapply Hmany|].
    eapply Hstep; eauto.
Qed.

Lemma length_slice0 {A} (n : Z) (l : list A) :
  0 ≤ n → length (JS.slice0 n l) = (Z.to_nat n `min` length l)%nat.
Proof.
  intros Hn. unfold JS.slice0. rewrite bool_decide_eq_false_2 by lia.
  apply length_take.
Qed.

(** While a whole id is missing, a turn on a page that has ids selects
    at least one, and never more than are missing. *)
Lemma length_selected rem (pageIds : list Z) :
  Num.gt rem 0 = true → length pageIds ≠ 0%nat →
  let len := Z.of_nat (length (JS.slice0 (Num.truncate rem) pageIds)) in
  match rem with
  | Int n => 1 ≤ len ≤ n
  | NonInt b => 0 ≤ len ≤ b
  | NaN => False
  end.
Proof.
  intros Hrem Hne. destruct rem as [n|b|]; simpl in *; [..|done];
    apply bool_decide_eq_true in Hrem.
  - rewrite length_slice0 by lia. lia.
  - rewrite bool_decide_eq_false_2 by lia. rewrite length_slice0 by lia. lia.
Qed.

(** Every property of the world that [selectAllOnPage] keeps is kept
    by the loop. *)
Lemma fetch_loop_preserves (P : World → Prop) :
  (∀ now p ids w, P w → P (selectAllOnPage now p ids w)) →
  ∀ fuel clk rem page w,
    P w → P (world (fetch_loop fuel clk getPageData rem page w)).
Proof.
  intros Hsel. apply (fetch_loop_ind (λ _ _ _ _ w r, P w → P (world r)));
    simpl; auto.
Qed.

Lemma turns_needed_positive rem page :
  Num.gt rem 0 = true → (0 < turns_needed rem page)%nat.
Proof.
  destruct rem as [n|b|]; simpl; [..|done];
    intros Hrem%bool_decide_eq_true; lia.
Qed.

Lemma turns_needed_next rem page (pageIds : list Z) :
  Num.gt rem 0 = true → length pageIds ≠ 0%nat → ¬ page + 1 > 1000 →
  let len := Z.of_nat (length (JS.slice0 (Num.truncate rem) pageIds)) in
  (S (turns_needed (Num.sub rem len) (page + 1)) ≤ turns_needed rem page)%nat.
Proof.
  intros Hrem Hne Hpage.
  pose proof (length_selected rem pageIds Hrem Hne) as Hlen.
  destruct rem as [n|b|]; simpl in *; [lia|lia|done].
Qed.

(** With [turns_needed] turns the loop never runs out of fuel. *)
Lemma fetch_loop_enough_fuel fuel clk rem page w :
  (turns_needed rem page ≤ fuel)%nat →
  stop (fetch_loop fuel clk getPageData rem page w) ≠ OutOfFuel.
Proof.
  revert fuel clk rem page w.
  apply (fetch_loop_ind
           (λ fuel _ rem page _ r,
              (turns_needed rem page ≤ fuel)%nat → stop r ≠ OutOfFuel));
    simpl; try done.
  - intros _ rem page _ Hrem Hfuel.
    pose proof (turns_needed_positive rem page Hrem). lia.
  - intros fuel clk rem page w pageIds r Hrem _ Hne Hpage _ IH Hfuel.
    apply IH. pose proof (turns_needed_next rem page pageIds Hrem Hne Hpage).
    simpl in *. lia.
Qed.

(** Any larger budget gives the same run. *)
Lemma fetch_loop_fuel_irrelevant fuel fuel' clk rem page w :
  (turns_needed rem page ≤ fuel)%nat → (turns_needed rem page ≤ fuel')%nat →
  fetch_loop fuel clk getPageData rem page w
  = fetch_loop fuel' clk getPageData rem page w.
Proof.
  revert fuel' clk rem page w.
  induction fuel as [|fuel IH]; intros fuel' clk rem page w Hf Hf';
    destruct fuel' as [|fuel']; simpl;
    destruct (Num.gt rem 0) eqn:Hrem; try done;
    try (pose proof (turns_needed_positive rem page Hrem); lia).
  destruct (getPageData page) as [pageIds|error]; [|done].
  case_bool_decide as Hne; [done|].
  case_bool_decide as Hpage; [done|].
  pose proof (turns_needed_next rem page pageIds Hrem Hne Hpage).
  do 2 f_equal. apply IH; simpl in *; lia.
Qed.




(** A rejected fetch is the last one. *)
Lemma fetch_loop_rejected fuel clk rem page w q error :
  let r := fetch_loop fuel clk getPageData rem page w in
  q ∈ fetched r → getPageData q = Rejected error →
  stop r = FetchFailed q error ∧ last (fetched r) = Some q.
Proof.
  revert fuel clk rem page w.
  apply (fetch_loop_ind
           (λ _ _ _ _ _ r,
              q ∈ fetched r → getPageData q = Rejected error →
              stop r = FetchFailed q error ∧ last (fetched r) = Some q));
    simpl.
  - intros _ _ _ _ _ _ Hin. by apply elem_of_nil in Hin.
  - intros _ _ _ _ _ Hin. by apply elem_of_nil in Hin.
  - intros _ _ _ page _ e _ E Hin Hq.
    apply list_elem_of_singleton in Hin as ->. split; congruence.
  - intros _ _ _ page _ ids _ E _ Hin Hq.
    apply list_elem_of_singleton in Hin as ->. congruence.
  - intros _ _ _ page _ ids _ E _ _ Hin Hq.
    apply list_elem_of_singleton in Hin as ->. congruence.
  - intros _ _ _ page _ ids r _ E _ _ _ IH Hin Hq.
    apply elem_of_cons in Hin as [->|Hin]; [congruence|].
    destruct (IH Hin Hq) as [-> Hlast]. by rewrite last_cons, Hlast.
Qed.

(** Selections only accumulate: what was selected before the loop and
    what each turn selected is selected at the end. *)
Lemma fetch_loop_retains fuel clk rem page w :
  let r := fetch_loop fuel clk getPageData rem page w in
  selectedIds (state w) ⊆ selectedIds (state (world r)) ∧
  ∀ q ids, (q, ids) ∈ picked r →
           list_to_set ids ⊆ selectedIds (state (world r)).
Proof.
  revert fuel clk rem page w.
  apply (fetch_loop_ind
           (λ _ _ _ _ w r,
              selectedIds (state w) ⊆ selectedIds (state (world r)) ∧
              ∀ q ids, (q, ids) ∈ picked r →
                       list_to_set ids ⊆ selectedIds (state (world r))));
    simpl; try (intros; split; [done|]; intros ?? Hin;
                by apply elem_of_nil in Hin).
  - intros _ clk rem page w pageIds _ _ _ _.
    rewrite selectedIds_selectAllOnPage. split; [set_solver|].
    intros q ids Hin. apply list_elem_of_singleton in Hin. simplify_eq.
    set_solver.
  - intros fuel clk rem page w pageIds r _ _ _ _ _ [IH1 IH2].
    rewrite selectedIds_selectAllOnPage in IH1. split; [set_solver|].
    intros q ids Hin. apply elem_of_cons in Hin as [Heq|Hin].
    + simplify_eq. set_solver.
    + by eapply IH2.
Qed.

Lemma fetch_loop_lastBulkSelection fuel clk rem page w :
  lastBulkSelection (state (world (fetch_loop fuel clk getPageData rem page w)))
  = lastBulkSelection (state w).
Proof.
  apply (fetch_loop_preserves
           (λ w', lastBulkSelection (state w') = lastBulkSelection (state w)));
    [|done].
  intros. by rewrite lastBulkSelection_selectAllOnPage.
Qed.

Lemma fetch_loop_quota fuel clk rem page w :
  quota_exceeded (storage (world (fetch_loop fuel clk getPageData rem page w)))
  = quota_exceeded (storage w).
Proof.
  apply (fetch_loop_preserves
           (λ w', quota_exceeded (storage w') = quota_exceeded (storage w)));
    [|done].
  intros. by rewrite quota_selectAllOnPage.
Qed.
End fetch_loop.

(** ** The union of the page sets *)

Lemma elem_of_union_of_pages id s :
  id ∈ union_of_pages s ↔ ∃ p X, pageSelections s !! p = Some X ∧ id ∈ X.
Proof.
  unfold union_of_pages. rewrite elem_of_union_list. split.
  - intros (X & HX & Hid). apply list_elem_of_fmap in HX as ([p X'] & -> & Hin).
    apply elem_of_map_to_list in Hin. by exists p, X'.
  - intros (p & X & Hp & Hid). exists X. split; [|done].
    apply list_elem_of_fmap. exists (p, X). split; [done|].
    by apply elem_of_map_to_list.
Qed.

Lemma selection_consistent_iff s :
  selection_consistent s ↔ pages_within_selected s ∧ selected_within_pages s.
Proof.
  unfold selection_consistent, pages_within_selected, selected_within_pages.
  split.
  - intros E. split.
    + intros p X id Hp Hid. rewrite E. apply elem_of_union_of_pages. eauto.
    + intros id Hid. rewrite E in Hid. by apply elem_of_union_of_pages.
  - intros [HA HB]. apply set_eq. intros id.
    rewrite elem_of_union_of_pages. split; [by apply HB|].
    intros (p & X & Hp & Hid). by eapply HA.
Qed.

(** *** What each method does to a page entry *)

Lemma lookup_pages_selectRow now p id w q :
  pageSelections (state (selectRow now p id w)) !! q
  = if decide (q = p) then Some ({[id]} ∪ getPageSelections p (state w))
    else pageSelections (state w) !! q.
Proof.
  rewrite pageSelections_selectRow. case_decide as E.
  - subst. apply lookup_insert_eq.
  - by rewrite lookup_insert_ne.
Qed.

Lemma lookup_pages_deselectRow now p id w q :
  pageSelections (state (deselectRow now p id w)) !! q
  = if decide (q = p) then
      match pageSelections (state w) !! p with
      | Some X => if decide (X ∖ {[id]} = ∅) then None else Some (X ∖ {[id]})
      | None => None
      end
    else pageSelections (state w) !! q.
Proof.
  rewrite pageSelections_deselectRow.
  destruct (pageSelections (state w) !! p) as [X|] eqn:E.
  - case_bool_decide as Hsz.
    + apply size_empty_iff in Hsz. apply leibniz_equiv in Hsz.
      case_decide; subst.
      * rewrite lookup_delete_eq. by rewrite decide_True.
      * by rewrite lookup_delete_ne.
    + case_decide; subst.
      * rewrite lookup_insert_eq. rewrite decide_False; [done|].
        intros Hempty. apply Hsz. rewrite Hempty. apply size_empty.
      * by rewrite lookup_insert_ne.
  - case_decide; by subst.
Qed.

Lemma lookup_pages_selectAllOnPage now p ids w q :
  pageSelections (state (selectAllOnPage now p ids w)) !! q
  = if decide (q = p) then Some (list_to_set ids)
    else pageSelections (state w) !! q.
Proof.
  rewrite pageSelections_selectAllOnPage. case_decide; subst.
  - apply lookup_insert_eq.
  - by rewrite lookup_insert_ne.
Qed.

Lemma lookup_pages_deselectAllOnPage now p w q :
  pageSelections (state (deselectAllOnPage now p w)) !! q
  = if decide (q = p) then None else pageSelections (state w) !! q.
Proof.
  rewrite pageSelections_deselectAllOnPage. case_decide; subst.
  - apply lookup_delete_eq.
  - by rewrite lookup_delete_ne.
Qed.

Lemma getPageSelections_selectAllOnPage_ne now p ids w q :
  q ≠ p →
  getPageSelections q (state (selectAllOnPage now p ids w))
  = getPageSelections q (state w).
Proof.
  intros Hne. unfold getPageSelections.
  rewrite lookup_pages_selectAllOnPage. by rewrite decide_False.
Qed.

(** *** The total follows the size of [selectedIds] *)

Lemma total_is_size_updateTotalSelected s : total_is_size (updateTotalSelected s).
Proof. done. Qed.

Lemma total_is_size_selectAllOnPage now p ids w :
  total_is_size (state (selectAllOnPage now p ids w)).
Proof. unfold selectAllOnPage. by rewrite state_saveToStorage. Qed.

Lemma bulkSelect_unfold clk p n f w :
  bulkSelect clk p n f w
  = if Num.le n 0 || Num.gt n SELECTION_CONFIG.MAX_BULK_SELECTION
    then ThrowsInvalidCount n
    else ReturnsPromise (performBulkSelection clk p n f w).1 Fulfilled.
Proof. done. Qed.

Lemma total_is_size_performBulkSelection clk p n f w :
  total_is_size (state w) →
  total_is_size (state (world (performBulkSelection clk p n f w).1)).
Proof.
  intros Hw. unfold performBulkSelection. simpl. rewrite state_saveToStorage.
  apply (fetch_loop_preserves f (λ w', total_is_size (state w'))); [|done].
  intros. apply total_is_size_selectAllOnPage.
Qed.

Lemma total_is_size_step w c :
  total_is_size (state w) → total_is_size (state (step w c)).
Proof.
  intros Hw. destruct c as [now p id|now p id|now p ids|now p|clk p n f|now];
    simpl.
  - unfold selectRow. by rewrite state_saveToStorage.
  - unfold deselectRow. by rewrite state_saveToStorage.
  - apply total_is_size_selectAllOnPage.
  - unfold deselectAllOnPage. by rewrite state_saveToStorage.
  - rewrite bulkSelect_unfold. destruct (_ || _); [done|].
    by apply total_is_size_performBulkSelection.
  - by rewrite state_clearAllSelections.
Qed.

Lemma total_is_size_run calls w :
  total_is_size (state w) → total_is_size (state (run_calls w calls)).
Proof.
  revert w. induction calls as [|c calls IH]; intros w Hw; [done|].
  simpl. apply IH. by apply total_is_size_step.
Qed.

Lemma fetch_loop_no_pick f fuel clk rem page w :
  picked (fetch_loop fuel clk f rem page w) = [] →
  world (fetch_loop fuel clk f rem page w) = w.
Proof.
  destruct fuel as [|fuel]; simpl.
  - by destruct (Num.gt rem 0).
  - destruct (Num.gt rem 0); [|done].
    destruct (f page) as [pageIds|error]; [|done].
    by case_bool_decide.
Qed.

Lemma fetch_loop_pick_total f fuel clk rem page w :
  picked (fetch_loop fuel clk f rem page w) ≠ [] →
  total_is_size (state (world (fetch_loop fuel clk f rem page w))).
Proof.
  destruct fuel as [|fuel]; simpl.
  - by destruct (Num.gt rem 0).
  - destruct (Num.gt rem 0); [|done].
    destruct (f page) as [pageIds|error]; [|done].
    case_bool_decide; [done|]. intros _.
    case_bool_decide; cbn [world did_fetch did_pick halt].
    + apply total_is_size_selectAllOnPage.
    + apply (fetch_loop_preserves f (λ w', total_is_size (state w'))).
      * intros. apply total_is_size_selectAllOnPage.
      * apply total_is_size_selectAllOnPage.
Qed.

Lemma recomputes_total_true w c :
  recomputes_total w c = true → total_is_size (state (step w c)).
Proof.
  destruct c as [now p id|now p id|now p ids|now p|clk p n f|now];
    simpl; intros Hc.
  - unfold selectRow. by rewrite state_saveToStorage.
  - unfold deselectRow. by rewrite state_saveToStorage.
  - apply total_is_size_selectAllOnPage.
  - unfold deselectAllOnPage. by rewrite state_saveToStorage.
  - rewrite bulkSelect_unfold in *. destruct (_ || _); [done|].
    apply bool_decide_eq_true in Hc. unfold performBulkSelection in *.
    cbn [fst world_after world picked] in *. rewrite state_saveToStorage.
    by apply fetch_loop_pick_total.
  - by rewrite state_clearAllSelections.
Qed.

Lemma recomputes_total_false w c :
  recomputes_total w c = false →
  selectedIds (state (step w c)) = selectedIds (state w) ∧
  pageSelections (state (step w c)) = pageSelections (state w) ∧
  totalSelected (state (step w c)) = totalSelected (state w).
Proof.
  destruct c as [now p id|now p id|now p ids|now p|clk p n f|now];
    simpl; intros Hc; try done.
  rewrite bulkSelect_unfold in *. destruct (_ || _); [done|].
  apply bool_decide_eq_false in Hc. apply dec_stable in Hc.
  unfold performBulkSelection in *.
  cbn [fst world_after world picked] in *. rewrite state_saveToStorage.
  by rewrite fetch_loop_no_pick.
Qed.

Lemma total_is_size_run_iff calls w :
  total_is_size (state (run_calls w calls)) ↔
  total_is_size (state w) ∨ total_recomputed w calls = true.
Proof.
  revert w. induction calls as [|c calls IH]; intros w.
  - simpl. split; [by left|]. by intros [?|?].
  - change (run_calls w (c :: calls)) with (run_calls (step w c) calls).
    rewrite IH. cbn [total_recomputed].
    destruct (recomputes_total w c) eqn:Hc.
    + apply recomputes_total_true in Hc. split; intros _; [by right|by left].
    + apply recomputes_total_false in Hc as (Hids & _ & Htotal).
      unfold total_is_size, getTotalSelected. by rewrite Hids, Htotal.
Qed.

(** *** [selectedIds] against the union of the page sets *)

Lemma consistent_empty_state : selection_consistent empty_state.
Proof.
  apply selection_consistent_iff. split.
  - intros p X id Hp. simpl in Hp. by rewrite lookup_empty in Hp.
  - intros id Hid. simpl in Hid. by apply not_elem_of_empty in Hid.
Qed.

Lemma consistent_selectRow now p id w :
  selection_consistent (state w) →
  selection_consistent (state (selectRow now p id w)).
Proof.
  rewrite !selection_consistent_iff. intros [HA HB]. split.
  - intros q X x. rewrite lookup_pages_selectRow, selectedIds_selectRow.
    case_decide; subst.
    + intros [= <-] [Hx|Hx]%elem_of_union; [set_solver|].
      apply elem_of_getPageSelections in Hx as (Y & HY & Hx).
      apply elem_of_union_r. by eapply HA.
    + intros Hq Hx. apply elem_of_union_r. by eapply HA.
  - intros x. rewrite selectedIds_selectRow.
    intros [Hx|Hx]%elem_of_union.
    + exists p, ({[id]} ∪ getPageSelections p (state w)).
      rewrite lookup_pages_selectRow, decide_True by done. set_solver.
    + destruct (HB x Hx) as (q & X & Hq & HxX).
      destruct (decide (q = p)) as [->|Hne].
      * exists p, ({[id]} ∪ getPageSelections p (state w)).
        rewrite lookup_pages_selectRow, decide_True by done. split; [done|].
        apply elem_of_union_r. apply elem_of_getPageSelections. eauto.
      * exists q, X. by rewrite lookup_pages_selectRow, decide_False.
Qed.

Lemma consistent_deselectRow now p id w :
  on_no_other_page p id (state w) →
  selection_consistent (state w) →
  selection_consistent (state (deselectRow now p id w)).
Proof.
  rewrite !selection_consistent_iff. intros Hguard [HA HB]. split.
  - intros q X x. rewrite lookup_pages_deselectRow, selectedIds_deselectRow.
    case_decide; subst.
    + destruct (pageSelections (state w) !! p) as [Y|] eqn:EY; [|done].
      case_decide; [done|]. intros [= <-] Hx.
      apply elem_of_difference in Hx as [Hx Hne].
      apply elem_of_difference. split; [by eapply HA|done].
    + intros Hq Hx. apply elem_of_difference. split; [by eapply HA|].
      destruct (Hguard q X Hq) as [?|Hid]; [done|]. set_solver.
  - intros x. rewrite selectedIds_deselectRow.
    intros [Hx Hne]%elem_of_difference.
    destruct (HB x Hx) as (q & X & Hq & HxX).
    destruct (decide (q = p)) as [->|Hqp].
    + exists p, (X ∖ {[id]}).
      rewrite lookup_pages_deselectRow, decide_True, Hq by done.
      rewrite decide_False by set_solver. set_solver.
    + exists q, X. by rewrite lookup_pages_deselectRow, decide_False.
Qed.

Lemma consistent_selectAllOnPage now p ids w :
  covers_page p ids (state w) →
  selection_consistent (state w) →
  selection_consistent (state (selectAllOnPage now p ids w)).
Proof.
  rewrite !selection_consistent_iff. intros Hguard [HA HB]. split.
  - intros q X x.
    rewrite lookup_pages_selectAllOnPage, selectedIds_selectAllOnPage.
    case_decide; subst.
    + intros [= <-] Hx. by apply elem_of_union_l.
    + intros Hq Hx. apply elem_of_union_r. by eapply HA.
  - intros x. rewrite selectedIds_selectAllOnPage.
    intros [Hx|Hx]%elem_of_union.
    + exists p, (list_to_set ids).
      by rewrite lookup_pages_selectAllOnPage, decide_True.
    + destruct (HB x Hx) as (q & X & Hq & HxX).
      destruct (decide (q = p)) as [->|Hqp].
      * exists p, (list_to_set ids).
        rewrite lookup_pages_selectAllOnPage, decide_True by done.
        split; [done|]. apply Hguard. apply elem_of_getPageSelections. eauto.
      * exists q, X. by rewrite lookup_pages_selectAllOnPage, decide_False.
Qed.

Lemma consistent_deselectAllOnPage now p w :
  page_disjoint_from_others p (state w) →
  selection_consistent (state w) →
  selection_consistent (state (deselectAllOnPage now p w)).
Proof.
  rewrite !selection_consistent_iff. intros Hguard [HA HB]. split.
  - intros q X x.
    rewrite lookup_pages_deselectAllOnPage, selectedIds_deselectAllOnPage.
    case_decide; [done|]. intros Hq Hx.
    apply elem_of_difference. split; [by eapply HA|].
    destruct (Hguard q X Hq) as [?|Hdisj]; [done|]. set_solver.
  - intros x. rewrite selectedIds_deselectAllOnPage.
    intros [Hx Hnot]%elem_of_difference.
    destruct (HB x Hx) as (q & X & Hq & HxX).
    destruct (decide (q = p)) as [->|Hqp].
    + exfalso. apply Hnot. apply elem_of_getPageSelections. eauto.
    + exists q, X. by rewrite lookup_pages_deselectAllOnPage, decide_False.
Qed.

(** The loop selects on pages at or after the current one, each once. *)
Lemma fetch_loop_picked_pages f fuel clk rem page w q ids :
  (q, ids) ∈ picked (fetch_loop fuel clk f rem page w) → page ≤ q.
Proof.
  revert fuel clk rem page w.
  apply (fetch_loop_ind f
           (λ _ _ _ page _ r, (q, ids) ∈ picked r → page ≤ q));
    simpl; try (intros; exfalso; by eapply not_elem_of_nil).
  - intros _ _ rem page _ pageIds _ _ _ _ Hin.
    apply list_elem_of_singleton in Hin. simplify_eq. lia.
  - intros _ _ rem page _ pageIds r _ _ _ _ _ IH Hin.
    apply elem_of_cons in Hin as [Heq|Hin]; [simplify_eq; lia|].
    specialize (IH Hin). lia.
Qed.

Lemma consistent_fetch_loop f fuel clk rem page w :
  let r := fetch_loop fuel clk f rem page w in
  (∀ q ids, (q, ids) ∈ picked r → covers_page q ids (state w)) →
  selection_consistent (state w) →
  selection_consistent (state (world r)).
Proof.
  revert fuel clk rem page w.
  apply (fetch_loop_ind f
           (λ _ _ _ _ w r,
              (∀ q ids, (q, ids) ∈ picked r → covers_page q ids (state w)) →
              selection_consistent (state w) →
              selection_consistent (state (world r))));
    simpl; try done.
  - intros _ clk rem page w pageIds _ _ _ _ Hguard Hw.
    apply consistent_selectAllOnPage; [|done].
    apply Hguard. apply list_elem_of_here.
  - intros fuel clk rem page w pageIds r _ _ _ _ Hr IH Hguard Hw.
    apply IH.
    + intros q ids Hin. unfold covers_page.
      rewrite getPageSelections_selectAllOnPage_ne.
      * apply Hguard. by apply list_elem_of_further.
      * rewrite Hr in Hin. apply fetch_loop_picked_pages in Hin. lia.
    + apply consistent_selectAllOnPage; [|done].
      apply Hguard. apply list_elem_of_here.
Qed.

Lemma consistent_with_lastBulkSelection b s :
  selection_consistent s → selection_consistent (with_lastBulkSelection b s).
Proof. done. Qed.

Lemma consistent_step w c :
  call_allowed w c = true →
  selection_consistent (state w) → selection_consistent (state (step w c)).
Proof.
  destruct c as [now p id|now p id|now p ids|now p|clk p n f|now];
    simpl; intros Hok Hw.
  - by apply consistent_selectRow.
  - apply consistent_deselectRow; [|done]. by apply bool_decide_eq_true in Hok.
  - apply consistent_selectAllOnPage; [|done].
    by apply bool_decide_eq_true in Hok.
  - apply consistent_deselectAllOnPage; [|done].
    by apply bool_decide_eq_true in Hok.
  - revert Hok. rewrite bulkSelect_unfold. destruct (_ || _); [done|].
    unfold performBulkSelection. simpl. intros Hok.
    rewrite state_saveToStorage. apply consistent_fetch_loop; [|done].
    intros q ids Hin. rewrite forallb_forall in Hok.
    apply list_elem_of_In, Hok in Hin. by apply bool_decide_eq_true in Hin.
  - rewrite state_clearAllSelections. apply consistent_empty_state.
Qed.

(** ** Page numbers through property keys: [parseInt(String(n), 10) = n] *)

Module JSFacts.
Import JS.

Lemma scan_digits_uint d acc :
  scan_digits (NilEmpty.string_of_uint d) (Some acc) = Some (uint_value d acc).
Proof.
  revert acc. induction d; intros acc; simpl NilEmpty.string_of_uint;
    [done|..]; cbn [scan_digits uint_value]; by rewrite <- IHd.
Qed.

Lemma scan_digits_uint_start d :
  d ≠ Nil →
  scan_digits (NilEmpty.string_of_uint d) None = Some (uint_value d 0).
Proof.
  destruct d; [done|..]; intros _; simpl NilEmpty.string_of_uint;
    cbn [scan_digits uint_value]; by rewrite <- scan_digits_uint.
Qed.

Lemma parseInt_uint d :
  d ≠ Nil →
  parseInt (NilEmpty.string_of_uint d) = Some (uint_value d 0).
Proof.
  intros Hd. rewrite <- scan_digits_uint_start by done.
  by destruct d.
Qed.

Lemma parseInt_neg_uint d :
  d ≠ Nil →
  parseInt (String "-" (NilEmpty.string_of_uint d)) = Some (- uint_value d 0).
Proof.
  intros Hd. change (parseInt (String "-" (NilEmpty.string_of_uint d)))
    with (Z.opp <$> scan_digits (NilEmpty.string_of_uint d) None).
  by rewrite scan_digits_uint_start.
Qed.

Lemma of_uint_acc_value d p :
  Z.pos (Pos.of_uint_acc d p) = uint_value d (Z.pos p).
Proof.
  revert p. induction d; intros p; simpl; [done|..];
    rewrite IHd; f_equal; lia.
Qed.

Lemma of_uint_value d : Z.of_N (Pos.of_uint d) = uint_value d 0.
Proof.
  induction d; simpl; [done|done|..]; by rewrite of_uint_acc_value.
Qed.

Lemma value_to_uint p : uint_value (Pos.to_uint p) 0 = Z.pos p.
Proof. by rewrite <- of_uint_value, DecimalPos.Unsigned.of_to. Qed.

Lemma string_of_uint_nonnil d :
  d ≠ Nil → NilZero.string_of_uint d = NilEmpty.string_of_uint d.
Proof. by destruct d. Qed.

(** A page number survives the trip through a property key. *)
Lemma parseInt_Number_toString n : parseInt (Number_toString n) = Some n.
Proof.
  unfold Number_toString. destruct n as [|p|p]; simpl.
  - done.
  - pose proof (DecimalPos.Unsigned.to_uint_nonnil p) as Hnil.
    by rewrite string_of_uint_nonnil, parseInt_uint, value_to_uint.
  - pose proof (DecimalPos.Unsigned.to_uint_nonnil p) as Hnil.
    by rewrite string_of_uint_nonnil, parseInt_neg_uint, value_to_uint.
Qed.
End JSFacts.

(** ** Reading back what [saveToStorage] wrote *)

Lemma traverse_as_number l : traverse Dyn.as_number (JNum <$> l) = Returns l.
Proof.
  induction l as [|a l IH]; [done|].
  cbn [fmap list_fmap traverse]. refold_fmap. by rewrite IH.
Qed.

Lemma new_Set_ids_array X : Dyn.new_Set (Some (ids_array X)) = Returns X.
Proof.
  unfold ids_array. cbn [Dyn.new_Set]. rewrite traverse_as_number.
  cbn [mbind outcome_bind]. by rewrite list_to_set_elements_L.
Qed.

Lemma restore_page_entry e : restore_entry (page_entry e) = Returns e.
Proof.
  destruct e as [p X]. unfold restore_entry, page_entry.
  cbn [fst snd]. rewrite JSFacts.parseInt_Number_toString.
  by rewrite new_Set_ids_array.
Qed.

Lemma traverse_restore_entries l :
  traverse restore_entry (page_entry <$> l) = Returns l.
Proof.
  induction l as [|e l IH]; [done|].
  cbn [fmap list_fmap traverse]. refold_fmap.
  by rewrite restore_page_entry, IH.
Qed.

Lemma foldl_insert_entries (l : list (Z * gset Z)) (m : gmap Z (gset Z)) :
  NoDup l.*1 →
  foldl (λ m e, <[e.1 := e.2]> m) m l = list_to_map l ∪ m.
Proof.
  revert m. induction l as [|[k v] l IH]; intros m Hnd; simpl.
  - by rewrite (left_id_L ∅ (∪)).
  - apply NoDup_cons in Hnd as [Hk Hnd]. rewrite IH by done.
    rewrite <- insert_union_l. rewrite insert_union_r; [done|].
    by apply not_elem_of_list_to_map_1.
Qed.

Lemma new_Map_map_to_list (m : gmap Z (gset Z)) :
  Dyn.new_Map (map_to_list m) = m.
Proof.
  unfold Dyn.new_Map. rewrite foldl_insert_entries.
  - by rewrite list_to_map_to_list, (right_id_L ∅ (∪)).
  - apply NoDup_fst_map_to_list.
Qed.

(** A manager built from a record written at [saved] and read at [now],
    no later than the expiry window allows. *)
Lemma load_saved_record now saved s ls :
  now - saved ≤ expiryTime →
  new_SelectionManager now
    {| item := Some (Parsed (dataToStore saved s)); quota_exceeded := ls |}
  = Some {| state := with_lastBulkSelection None s;
            storage := {| item := Some (Parsed (dataToStore saved s));
                          quota_exceeded := ls |} |}.
Proof.
  intros Hfresh. unfold new_SelectionManager, loadFromStorage.
  cbn [item storage].
  change (Dyn.get (dataToStore saved s) "timestamp")
    with (Returns (A:=option json) (Some (JNum saved))).
  cbn [mbind outcome_bind Dyn.toNumber expired].
  rewrite bool_decide_eq_false_2 by lia.
  change (Dyn.get (dataToStore saved s) "selectedIds")
    with (Returns (A:=option json) (Some (ids_array (selectedIds s)))).
  cbn [mbind outcome_bind]. rewrite new_Set_ids_array.
  change (Dyn.get (dataToStore saved s) "pageSelections")
    with (Returns (A:=option json)
            (Some (JObj (page_entry <$> map_to_list (pageSelections s))))).
  cbn [mbind outcome_bind Dyn.Object_entries].
  rewrite traverse_restore_entries.
  change (Dyn.get (dataToStore saved s) "totalSelected")
    with (Returns (A:=option json) (Some (JNum (totalSelected s)))).
  cbn [mbind outcome_bind from_option Dyn.as_number].
  rewrite new_Map_map_to_list. by destruct s.
Qed.

(** ** Page entries are not empty, unless [selectAllOnPage] gets an empty list *)

Lemma no_empty_page_selectAllOnPage now p ids w :
  ids ≠ [] → no_empty_page (state w) →
  no_empty_page (state (selectAllOnPage now p ids w)).
Proof.
  intros Hids Hw q X. rewrite lookup_pages_selectAllOnPage.
  case_decide; [|by apply Hw]. intros [= <-].
  destruct ids as [|a ids]; [done|]. set_solver.
Qed.

Lemma no_empty_page_fetch_loop f fuel clk rem page w :
  (∃ n, rem = Int n) →
  no_empty_page (state w) →
  no_empty_page (state (world (fetch_loop fuel clk f rem page w))).
Proof.
  revert fuel clk rem page w.
  apply (fetch_loop_ind f
           (λ _ _ rem _ w r,
              (∃ n, rem = Int n) → no_empty_page (state w) →
              no_empty_page (state (world r))));
    simpl; try done.
  - intros _ clk rem page w pageIds Hrem _ Hne _ [k ->] Hw.
    apply no_empty_page_selectAllOnPage; [|done].
    pose proof (length_selected (Int k) pageIds Hrem Hne) as Hlen.
    intros Hnil. rewrite Hnil in Hlen. simpl in Hlen. lia.
  - intros fuel clk rem page w pageIds r Hrem _ Hne _ _ IH [k ->] Hw.
    apply IH; [by eexists|].
    apply no_empty_page_selectAllOnPage; [|done].
    pose proof (length_selected (Int k) pageIds Hrem Hne) as Hlen.
    intros Hnil. rewrite Hnil in Hlen. simpl in Hlen. lia.
Qed.

Lemma no_empty_page_step w c :
  fills_pages c → no_empty_page (state w) → no_empty_page (state (step w c)).
Proof.
  destruct c as [now p id|now p id|now p ids|now p|clk p n f|now];
    simpl; intros Hc Hw.
  - intros q X. rewrite lookup_pages_selectRow. case_decide; [|by apply Hw].
    intros [= <-]. set_solver.
  - intros q X. rewrite lookup_pages_deselectRow. case_decide; [|by apply Hw].
    destruct (pageSelections (state w) !! p); [|done].
    case_decide; [done|]. by intros [= <-].
  - by apply no_empty_page_selectAllOnPage.
  - intros q X. rewrite lookup_pages_deselectAllOnPage.
    case_decide; [done|]. by apply Hw.
  - rewrite bulkSelect_unfold. destruct (_ || _) eqn:Hguard; [done|].
    unfold performBulkSelection. simpl. rewrite state_saveToStorage.
    destruct n as [n|b|]; [|done|].
    + apply no_empty_page_fetch_loop; [by eexists|done].
    + done.
  - rewrite state_clearAllSelections. intros q X Hq. simpl in Hq.
    by rewrite lookup_empty in Hq.
Qed.

(** Starting from the empty state, calls that hand no empty list to
    [selectAllOnPage] leave no page entry with the empty set. *)
Lemma no_empty_page_run ls calls :
  Forall fills_pages calls →
  no_empty_page (state (run_calls (fresh ls) calls)).
Proof.
  assert (no_empty_page (state (fresh ls))) as Hfresh.
  { intros q X Hq. simpl in Hq. by rewrite lookup_empty in Hq. }
  revert Hfresh. generalize (fresh ls).
  induction calls as [|c calls IH]; intros w Hw Hcalls; [done|].
  apply Forall_cons in Hcalls as [Hc Hcalls].
  simpl. apply IH; [|done]. by apply no_empty_page_step.
Qed.

(** * The examples of the specification *)

(** Bulk happy path: with pages [1,2,3,4,5] and [6,7,8],
    [bulkSelect(1, 7, fetch)] selects ids 1 to 7, five on page 1 and two
    on page 2. *)
Example bulk_happy_path :
  let s := state (step (fresh empty_storage)
                    (BulkSelect sample_clock 1 (Int 7) sample_fetcher)) in
  selectedIds s = {[1; 2; 3; 4; 5; 6; 7]} ∧
  pageSelections s = {[1 := {[1; 2; 3; 4; 5]}; 2 := {[6; 7]}]} ∧
  getTotalSelected s = 7.
Proof. by vm_compute. Qed.

(** Bulk exhaustion: the data runs out before the count is reached. *)
Example bulk_exhaustion :
  ∃ r, bulkSelect sample_clock 1 (Int 20) sample_fetcher (fresh empty_storage)
       = ReturnsPromise r Fulfilled ∧
       stop r = NoMoreData 3 ∧
       selectedIds (state (world r)) = {[1; 2; 3; 4; 5; 6; 7; 8]}.
Proof. eexists. by vm_compute. Qed.

(** Page cleanup: selecting all of page 3, then deselecting all of it,
    leaves no entry for page 3. *)
Example page_cleanup :
  pageSelections
    (state (run_calls (fresh empty_storage)
              [SelectAllOnPage 0 3 [31; 32; 33]; DeselectAllOnPage 1 3])) !! 3
  = None.
Proof. by vm_compute. Qed.

(** Idempotence: selecting a row twice gives the state of selecting it
    once. *)
Example selectRow_twice now now' p id w :
  state (selectRow now' p id (selectRow now p id w))
  = state (selectRow now p id w).
Proof.
  apply state_ext.
  - rewrite !selectedIds_selectRow. set_solver.
  - rewrite (pageSelections_selectRow now'). apply map_eq. intros q.
    unfold getPageSelections. rewrite !lookup_insert, !lookup_pages_selectRow.
    repeat case_decide; try done. simpl. f_equal. set_solver.
  - rewrite !totalSelected_selectRow, !selectedIds_selectRow.
    do 2 f_equal. set_solver.
  - by rewrite !lastBulkSelection_selectRow.
Qed.

(** * The claims *)

(** ** C1: [selectedIds] and the union of the page sets *)

(** C1, as stated, fails: after [selectRow(1, 5)], [selectRow(2, 5)] and
    [deselectRow(1, 5)] on a fresh manager, id 5 is still in
    [pageSelections[2]] but no longer in [selectedIds]. *)
Lemma selection_union_broken_by_shared_id :
  ¬ selection_consistent
      (state (run_calls (fresh empty_storage)
                [SelectRow 0 1 5; SelectRow 0 2 5; DeselectRow 0 1 5])).
Proof.
  intros [HA _]%selection_consistent_iff.
  specialize (HA 2 {[5]} 5).
  assert (5 ∈ (∅ : gset Z)) as Hin; [|by apply not_elem_of_empty in Hin].
  apply HA; [by vm_compute|set_solver].
Qed.

(** C1, amended: starting from the empty state, after every sequence of
    mutating calls in which [deselectRow] and [deselectAllOnPage] are never
    applied to an id that is also selected on another page, and
    [selectAllOnPage] (also when [bulkSelect] calls it) is always given a
    list containing every id currently selected on that page, [selectedIds]
    equals the union over all pages of [pageSelections]: every id in some
    page's set is in [selectedIds], and every id in [selectedIds] is in
    some page's set. *)
Theorem selection_union_of_disciplined_calls ls calls :
  disciplined (fresh ls) calls = true →
  let s := state (run_calls (fresh ls) calls) in
  selectedIds s = union_of_pages s ∧
  pages_within_selected s ∧ selected_within_pages s.
Proof.
  cut (disciplined (fresh ls) calls = true →
       selection_consistent (state (run_calls (fresh ls) calls))).
  { intros Hcut Hok. specialize (Hcut Hok). split; [done|].
    by apply selection_consistent_iff. }
  assert (∀ w, selection_consistent (state w) →
               disciplined w calls = true →
               selection_consistent (state (run_calls w calls))) as Hgen.
  { induction calls as [|c calls IH]; intros w Hw Hok; [done|].
    simpl in Hok. apply andb_true_iff in Hok as [Hc Hrest].
    simpl. apply IH; [|done]. by apply consistent_step. }
  intros Hok. apply Hgen; [|done]. apply consistent_empty_state.
Qed.

Lemma selection_union_of_disciplined_calls_witness :
  disciplined (fresh empty_storage) sample_calls = true ∧
  let s := state (run_calls (fresh empty_storage) sample_calls) in
  selectedIds s = union_of_pages s ∧
  pages_within_selected s ∧ selected_within_pages s.
Proof.
  split; [by vm_compute|].
  apply (selection_union_of_disciplined_calls empty_storage sample_calls).
  by vm_compute.
Defined.

(** ** C5: the total is the size of [selectedIds] *)

(** C5, as stated, fails on a manager restored from storage.  The
    constructor takes [totalSelected] from the stored record, here 40 with
    the two ids 7 and 8; a bulk selection whose fetcher finds every page
    empty (the one the hook passes) returns without reaching
    [updateTotalSelected], and [getTotalSelected] still answers 40. *)
Lemma total_selected_stale_after_reload :
  ∃ w, new_SelectionManager 2000
         {| item := Some (Parsed (record_json sample_record));
            quota_exceeded := false |} = Some w ∧
       let s := state (run_calls w
                         [BulkSelect sample_clock 1 (Int 5)
                            useSelection.getPageData]) in
       getTotalSelected s = 40 ∧ size (selectedIds s) = 2%nat ∧
       getTotalSelected s ≠ Z.of_nat (size (selectedIds s)).
Proof.
  eexists. split; [by vm_compute|].
  cbv zeta. split; [by vm_compute|]. split; [by vm_compute|].
  by vm_compute.
Qed.

(** C5, amended: after a sequence of mutating calls on a manager in
    whatever state, the value returned by [getTotalSelected] is the number
    of elements of [selectedIds] exactly when it was so before the
    sequence or some call of the sequence recomputed the total: every
    [selectRow], [deselectRow], [selectAllOnPage], [deselectAllOnPage] and
    [clearAllSelections] does, and a [bulkSelect] does when it selects on
    at least one page.  In particular the two agree after every sequence
    of calls on a manager that starts from the empty state. *)
Theorem total_selected_is_cardinality calls :
  (∀ w, let s := state (run_calls w calls) in
        getTotalSelected s = Z.of_nat (size (selectedIds s)) ↔
        getTotalSelected (state w) = Z.of_nat (size (selectedIds (state w))) ∨
        total_recomputed w calls = true) ∧
  (∀ ls, let s := state (run_calls (fresh ls) calls) in
         getTotalSelected s = Z.of_nat (size (selectedIds s))).
Proof.
  split.
  - intros w. apply total_is_size_run_iff.
  - intros ls. apply total_is_size_run. done.
Qed.

(** ** C8: page entries with an empty set *)

(** C8 fails on the code: [selectAllOnPage(3, [])] on a fresh manager
    leaves an entry for page 3 whose set is empty. *)
Theorem selectAllOnPage_empty_list_leaves_entry :
  pageSelections
    (state (run_calls (fresh empty_storage) [SelectAllOnPage 0 3 []])) !! 3
  = Some ∅.
Proof. by vm_compute. Qed.

(** ** C10: deselecting an id that is selected on two pages *)

(** C10: when [id] is in the sets of two different pages [p1] and [p2],
    [deselectRow(p1, id)] makes [isRowSelected(id)] false although [id]
    stays in [pageSelections[p2]]. *)
Theorem deselectRow_of_shared_id now w p1 p2 id :
  p1 ≠ p2 →
  id ∈ getPageSelections p1 (state w) →
  id ∈ getPageSelections p2 (state w) →
  let w' := deselectRow now p1 id w in
  isRowSelected id (state w') = false ∧ id ∈ getPageSelections p2 (state w').
Proof.
  intros Hne H1 H2. simpl. split.
  - unfold isRowSelected. apply bool_decide_eq_false.
    rewrite selectedIds_deselectRow. set_solver.
  - apply elem_of_getPageSelections in H2 as (X & HX & Hid).
    apply elem_of_getPageSelections. exists X. split; [|done].
    rewrite lookup_pages_deselectRow. by rewrite decide_False.
Qed.

Lemma deselectRow_of_shared_id_witness :
  let w := run_calls (fresh empty_storage) [SelectRow 0 1 5; SelectRow 0 2 5] in
  let w' := deselectRow 1 1 5 w in
  isRowSelected 5 (state w') = false ∧ 5 ∈ getPageSelections 2 (state w').
Proof.
  apply (deselectRow_of_shared_id 1
           (run_calls (fresh empty_storage) [SelectRow 0 1 5; SelectRow 0 2 5])
           1 2 5).
  - lia.
  - compute_done.
  - compute_done.
Defined.

(** ** C3: [selectAllOnPage] with a partial list *)

(** C3, as stated, fails: after [selectAllOnPage(1, [1, 2])] then
    [selectAllOnPage(1, [1])], id 2 is on no page at all and is still in
    [selectedIds]. *)
Lemma selectAllOnPage_partial_list_keeps_global :
  let w := selectAllOnPage 0 1 [1; 2] (fresh empty_storage) in
  let w' := selectAllOnPage 1 1 [1] w in
  ¬ (2 ∈ getPageSelections 1 (state w) → 2 ∉ ([1] : list Z) →
     (2 ∉ getPageSelections 1 (state w')) ∧
     ((∀ q, q ≠ 1 → 2 ∉ getPageSelections q (state w')) →
      2 ∉ selectedIds (state w'))).
Proof.
  cbv zeta. intros H.
  destruct H as [_ H].
  - compute_done.
  - set_solver.
  - apply H.
    + intros q Hq. unfold getPageSelections.
      rewrite !lookup_pages_selectAllOnPage. rewrite !decide_False by done.
      simpl. rewrite lookup_empty. set_solver.
    + rewrite !selectedIds_selectAllOnPage. set_solver.
Qed.

(** C3, amended: [selectAllOnPage(p, ids)] with a list that omits an id
    previously selected on page [p] removes that id from
    [pageSelections[p]] and leaves it in [selectedIds]; it stays globally
    selected exactly when it was before. *)
Theorem selectAllOnPage_partial_list now w p ids id :
  id ∈ getPageSelections p (state w) →
  id ∉ ids →
  let w' := selectAllOnPage now p ids w in
  (id ∉ getPageSelections p (state w')) ∧
  (id ∈ selectedIds (state w') ↔ id ∈ selectedIds (state w)) ∧
  isRowSelected id (state w') = isRowSelected id (state w).
Proof.
  intros Hold Hnew. simpl.
  assert (id ∈ selectedIds (state (selectAllOnPage now p ids w))
          ↔ id ∈ selectedIds (state w)) as Hsame.
  { rewrite selectedIds_selectAllOnPage. set_solver. }
  split; [|split; [done|]].
  - unfold getPageSelections.
    rewrite lookup_pages_selectAllOnPage, decide_True by done. simpl.
    by rewrite elem_of_list_to_set.
  - unfold isRowSelected. repeat case_bool_decide; tauto.
Qed.

Lemma selectAllOnPage_partial_list_witness :
  let w := selectAllOnPage 0 1 [1; 2] (fresh empty_storage) in
  let w' := selectAllOnPage 1 1 [1] w in
  (2 ∉ getPageSelections 1 (state w')) ∧
  (2 ∈ selectedIds (state w') ↔ 2 ∈ selectedIds (state w)) ∧
  isRowSelected 2 (state w') = isRowSelected 2 (state w).
Proof.
  apply (selectAllOnPage_partial_list 1
           (selectAllOnPage 0 1 [1; 2] (fresh empty_storage)) 1 [1] 2).
  - compute_done.
  - compute_done.
Defined.

(** ** C4: counts outside 1..1000 *)

(** C4, as stated, fails: a count of one half is not a positive integer
    between 1 and 1000, yet [bulkSelect] does not throw; it records the
    bulk metadata and requests pages 1, 2 and 3. *)
Lemma bulkSelect_accepts_fractional_count :
  let w := fresh empty_storage in
  let r := bulkSelect sample_clock 1 (NonInt 0) sample_fetcher w in
  ¬ ((∃ c, r = ThrowsInvalidCount c) ∧ world_after w r = w ∧
     pages_requested r = []).
Proof.
  cbv zeta. intros (_ & _ & Hpages). by vm_compute in Hpages.
Qed.

(** C4, amended: [bulkSelect] with a count that is at most 0 or greater
    than [MAX_BULK_SELECTION] (for an integer count: one that is not
    between 1 and 1000) throws at once; the manager and the storage are
    left exactly as they were and no page is requested. *)
Theorem bulkSelect_invalid_count clk startPage c f w :
  out_of_range c →
  let r := bulkSelect clk startPage c f w in
  r = ThrowsInvalidCount c ∧
  world_after w r = w ∧
  pages_requested r = [] ∧
  step w (BulkSelect clk startPage c f) = w.
Proof.
  intros Hc. simpl. rewrite bulkSelect_unfold.
  assert (Num.le c 0 || Num.gt c SELECTION_CONFIG.MAX_BULK_SELECTION = true)
    as ->; [|done].
  unfold out_of_range, SELECTION_CONFIG.MAX_BULK_SELECTION in *.
  destruct c as [n|b|]; simpl in *; [..|done];
    apply orb_true_iff; destruct Hc; [left|right|left|right];
    apply bool_decide_eq_true; lia.
Qed.

Lemma bulkSelect_invalid_count_witness :
  let w := run_calls (fresh empty_storage) [SelectRow 0 1 5] in
  (bulkSelect sample_clock 1 (Int 0) sample_fetcher w = ThrowsInvalidCount (Int 0) ∧
   world_after w (bulkSelect sample_clock 1 (Int 0) sample_fetcher w) = w ∧
   pages_requested (bulkSelect sample_clock 1 (Int 0) sample_fetcher w) = [] ∧
   step w (BulkSelect sample_clock 1 (Int 0) sample_fetcher) = w) ∧
  (bulkSelect sample_clock 1 (Int 1001) sample_fetcher w
   = ThrowsInvalidCount (Int 1001) ∧
   world_after w (bulkSelect sample_clock 1 (Int 1001) sample_fetcher w) = w ∧
   pages_requested (bulkSelect sample_clock 1 (Int 1001) sample_fetcher w) = [] ∧
   step w (BulkSelect sample_clock 1 (Int 1001) sample_fetcher) = w).
Proof.
  split.
  - apply (bulkSelect_invalid_count sample_clock 1 (Int 0) sample_fetcher).
    simpl. lia.
  - apply (bulkSelect_invalid_count sample_clock 1 (Int 1001) sample_fetcher).
    unfold out_of_range, SELECTION_CONFIG.MAX_BULK_SELECTION. lia.
Defined.

(** ** C9: the fetch loop terminates *)

Lemma bulkSelect_valid clk startPage n f w :
  1 ≤ n ≤ SELECTION_CONFIG.MAX_BULK_SELECTION →
  bulkSelect clk startPage (Int n) f w
  = ReturnsPromise (performBulkSelection clk startPage (Int n) f w).1 Fulfilled.
Proof.
  intros Hn. rewrite bulkSelect_unfold. simpl.
  by rewrite !bool_decide_eq_false_2 by lia.
Qed.

(** The budget given to the loop is never what stops it, whatever the
    count. *)
Lemma performBulkSelection_leaves_loop clk startPage c f w :
  stop (performBulkSelection clk startPage c f w).1 ≠ OutOfFuel.
Proof. unfold performBulkSelection. simpl. by apply fetch_loop_enough_fuel. Qed.



(** ** C2: a fetch that fails during [bulkSelect] *)

(** C2, as stated, fails: page 2 is requested and its fetch fails, yet the
    promise returned by [bulkSelect] is fulfilled, not rejected. *)
Lemma bulkSelect_fetch_error_not_propagated :
  let r := bulkSelect sample_clock 1 (Int 5) failing_fetcher (fresh empty_storage) in
  2 ∈ pages_requested r ∧
  failing_fetcher 2 = Rejected "network down" ∧
  ¬ ∃ run error, r = ReturnsPromise run (RejectedWith error).
Proof.
  cbv zeta. split; [compute_done|]. split; [done|].
  intros (run & error & Hr).
  rewrite bulkSelect_valid in Hr by (by vm_compute). congruence.
Qed.

(** C2, amended: when the fetch of a requested page fails, that page is
    the last one requested, everything selected before and on the prior
    pages remains selected, the state is written to storage (when storage
    accepts the write), and the error is logged and swallowed: the promise
    returned by [bulkSelect] is fulfilled. *)
Theorem bulkSelect_fetch_failure clk startPage n f w page error :
  page ∈ pages_requested (bulkSelect clk startPage n f w) →
  f page = Rejected error →
  ∃ r, bulkSelect clk startPage n f w = ReturnsPromise r Fulfilled ∧
       stop r = FetchFailed page error ∧
       last (fetched r) = Some page ∧
       selectedIds (state w) ⊆ selectedIds (state (world r)) ∧
       (∀ q ids, (q, ids) ∈ picked r →
                 list_to_set ids ⊆ selectedIds (state (world r))) ∧
       (quota_exceeded (storage w) = false →
        ∃ t, item (storage (world r))
             = Some (Parsed (dataToStore t (state (world r))))).
Proof.
  rewrite bulkSelect_unfold. destruct (_ || _).
  { intros Hin. by apply elem_of_nil in Hin. }
  unfold performBulkSelection. cbn [fst pages_requested fetched].
  set (w0 := set_state _ w).
  set (r := fetch_loop _ _ _ _ _ _).
  intros Hin Hrej. eexists. split; [done|].
  cbn [world stop fetched picked].
  destruct (fetch_loop_rejected f (turns_needed n startPage) (λ k, clk (S k))
              n startPage w0 page error Hin Hrej) as [Hstop Hlast].
  pose proof (fetch_loop_retains f (turns_needed n startPage) (λ k, clk (S k))
                n startPage w0) as [Hkeep Hpicked].
  fold r in Hstop, Hlast, Hkeep, Hpicked.
  rewrite state_saveToStorage.
  split; [done|]. split; [done|]. split; [done|]. split; [done|].
  intros Hquota. eexists. apply item_saveToStorage.
  unfold r. by rewrite fetch_loop_quota.
Qed.

Lemma bulkSelect_fetch_failure_witness :
  ∃ r, bulkSelect sample_clock 1 (Int 5) failing_fetcher (fresh empty_storage)
       = ReturnsPromise r Fulfilled ∧
       stop r = FetchFailed 2 "network down" ∧
       last (fetched r) = Some 2 ∧
       selectedIds (state (fresh empty_storage)) ⊆ selectedIds (state (world r)) ∧
       (∀ q ids, (q, ids) ∈ picked r →
                 list_to_set ids ⊆ selectedIds (state (world r))) ∧
       (quota_exceeded (storage (fresh empty_storage)) = false →
        ∃ t, item (storage (world r))
             = Some (Parsed (dataToStore t (state (world r))))).
Proof.
  apply (bulkSelect_fetch_failure sample_clock 1 (Int 5) failing_fetcher
           (fresh empty_storage) 2 "network down").
  - compute_done.
  - reflexivity.
Defined.

(** ** C6: saving, then loading *)

Lemma storage_saveToStorage now w :
  quota_exceeded (storage w) = false →
  storage (saveToStorage now w)
  = {| item := Some (Parsed (dataToStore now (state w)));
       quota_exceeded := false |}.
Proof. intros E. unfold saveToStorage, setItem. by rewrite E. Qed.

(** C6, as stated, fails: the state reached by a bulk selection carries
    [lastBulkSelection]; the manager built from what was saved, half a
    second later, has none. *)
Lemma bulk_metadata_lost_on_reload :
  let w := step (fresh empty_storage) (BulkSelect sample_clock 1 (Int 7) sample_fetcher) in
  let saved := storage (saveToStorage 2000 w) in
  2500 - 2000 ≤ expiryTime ∧
  ∃ w', new_SelectionManager 2500 saved = Some w' ∧
        lastBulkSelection (state w') ≠ lastBulkSelection (state w).
Proof.
  cbv zeta. split; [by vm_compute|].
  rewrite storage_saveToStorage by (by vm_compute).
  rewrite load_saved_record by (by vm_compute).
  eexists. split; [done|]. by vm_compute.
Qed.

(** C6, amended: when the write succeeds and the record is read back
    within the expiry window, the manager built from it has the same
    [selectedIds], the same [pageSelections] and the same [totalSelected]
    as the state that was saved; [lastBulkSelection] is not part of the
    record and is absent after loading. *)
Theorem reload_after_save saved_at loaded_at w :
  quota_exceeded (storage w) = false →
  loaded_at - saved_at ≤ expiryTime →
  ∃ w', new_SelectionManager loaded_at (storage (saveToStorage saved_at w))
        = Some w' ∧
        selectedIds (state w') = selectedIds (state w) ∧
        pageSelections (state w') = pageSelections (state w) ∧
        totalSelected (state w') = totalSelected (state w) ∧
        lastBulkSelection (state w') = None.
Proof.
  intros Hquota Hfresh.
  rewrite storage_saveToStorage, load_saved_record by done.
  eexists. split; [done|]. done.
Qed.

Lemma reload_after_save_witness :
  let w := step (fresh empty_storage) (BulkSelect sample_clock 1 (Int 7) sample_fetcher) in
  ∃ w', new_SelectionManager 2500 (storage (saveToStorage 2000 w)) = Some w' ∧
        selectedIds (state w') = selectedIds (state w) ∧
        pageSelections (state w') = pageSelections (state w) ∧
        totalSelected (state w') = totalSelected (state w) ∧
        lastBulkSelection (state w') = None.
Proof.
  apply (reload_after_save 2000 2500
           (step (fresh empty_storage) (BulkSelect sample_clock 1 (Int 7) sample_fetcher))).
  - by vm_compute.
  - by vm_compute.
Defined.

(** ** C7: records that do not parse or do not validate *)

(** A text [JSON.parse] rejects leaves the empty state and is removed. *)
Lemma load_unparseable now raw quota :
  raw ≠ EmptyString →
  new_SelectionManager now {| item := Some (Unparseable raw); quota_exceeded := quota |}
  = Some {| state := empty_state;
            storage := {| item := None; quota_exceeded := quota |} |}.
Proof.
  intros Hraw. unfold new_SelectionManager, loadFromStorage. simpl.
  by rewrite bool_decide_eq_false_2.
Qed.

(** The empty text is falsy: [loadFromStorage] returns before parsing and
    the entry stays. *)
Lemma load_empty_text now quota :
  new_SelectionManager now
    {| item := Some (Unparseable EmptyString); quota_exceeded := quota |}
  = Some {| state := empty_state;
            storage := {| item := Some (Unparseable EmptyString);
                          quota_exceeded := quota |} |}.
Proof. done. Qed.

(** C7 fails on the code: for the truncated record read at time 5000 the
    constructor does not fail and removes the entry, but the manager
    starts with ids 1, 2 and 3 selected (and a total of 0), not with the
    empty state. *)
Theorem truncated_record_partially_loaded :
  ∃ w, new_SelectionManager 5000
         {| item := Some (Parsed truncated_record); quota_exceeded := false |}
       = Some w ∧
       selectedIds (state w) = {[1; 2; 3]} ∧
       pageSelections (state w) = ∅ ∧
       totalSelected (state w) = 0 ∧
       item (storage w) = None ∧
       state w ≠ empty_state.
Proof.
  eexists. split; [by vm_compute|]. cbn [state storage item].
  repeat split; try by vm_compute.
Qed.

(** * Further properties of the manager *)

(** ** Selecting and deselecting one row *)

Lemma totalSelected_deselectRow now p id w :
  totalSelected (state (deselectRow now p id w))
  = Z.of_nat (size (selectedIds (state (deselectRow now p id w)))).
Proof. unfold deselectRow. by rewrite state_saveToStorage. Qed.

Lemma lastBulkSelection_deselectRow now p id w :
  lastBulkSelection (state (deselectRow now p id w)) = lastBulkSelection (state w).
Proof. unfold deselectRow. by rewrite state_saveToStorage. Qed.

(** X1. [deselectRow] on an id that is not selected changes nothing in
    the state, provided the page's entry is not an empty set (which
    [deselectRow] would remove) and the total is in step. *)
Theorem deselectRow_not_selected now p id w :
  id ∉ selectedIds (state w) →
  id ∉ getPageSelections p (state w) →
  pageSelections (state w) !! p ≠ Some ∅ →
  total_is_size (state w) →
  state (deselectRow now p id w) = state w.
Proof.
  intros Hid Hpage Hentry Htotal. apply state_ext.
  - rewrite selectedIds_deselectRow. set_solver.
  - apply map_eq. intros q. rewrite lookup_pages_deselectRow.
    case_decide as Hq; [|done]. subst q.
    destruct (pageSelections (state w) !! p) as [X|] eqn:EX; [|done].
    assert (id ∉ X) as HX.
    { intros Hin. apply Hpage. apply elem_of_getPageSelections. eauto. }
    assert (X ∖ {[id]} = X) as -> by set_solver.
    rewrite decide_False; [done|]. intros ->. done.
  - rewrite totalSelected_deselectRow, selectedIds_deselectRow.
    unfold total_is_size, getTotalSelected in Htotal.
    rewrite Htotal. do 2 f_equal. set_solver.
  - apply lastBulkSelection_deselectRow.
Qed.

Lemma deselectRow_not_selected_witness :
  let w := run_calls (fresh empty_storage) [SelectRow 0 1 5] in
  state (deselectRow 1 1 6 w) = state w.
Proof.
  apply (deselectRow_not_selected 1 1 6
           (run_calls (fresh empty_storage) [SelectRow 0 1 5])).
  - compute_done.
  - compute_done.
  - by vm_compute.
  - by vm_compute.
Defined.

(** X2. [deselectRow] is idempotent: a second call with the same page and
    id leaves the state as the first one made it. *)
Theorem deselectRow_twice now now' p id w :
  state (deselectRow now' p id (deselectRow now p id w))
  = state (deselectRow now p id w).
Proof.
  apply state_ext.
  - rewrite !selectedIds_deselectRow. set_solver.
  - apply map_eq. intros q. rewrite (lookup_pages_deselectRow now').
    case_decide as Hq; [|done]. subst q.
    rewrite lookup_pages_deselectRow, decide_True by done.
    destruct (pageSelections (state w) !! p) as [X|]; [|done].
    case_decide as HX; [done|].
    assert (X ∖ {[id]} ∖ {[id]} = X ∖ {[id]}) as -> by set_solver.
    by rewrite decide_False.
  - rewrite !totalSelected_deselectRow, !selectedIds_deselectRow.
    do 2 f_equal. set_solver.
  - by rewrite !lastBulkSelection_deselectRow.
Qed.

(** X3. Selecting a row that was not selected and deselecting it again on
    the same page gives back the state before, under the conditions of
    X1. *)
Theorem selectRow_then_deselectRow now now' p id w :
  id ∉ selectedIds (state w) →
  id ∉ getPageSelections p (state w) →
  pageSelections (state w) !! p ≠ Some ∅ →
  total_is_size (state w) →
  state (deselectRow now' p id (selectRow now p id w)) = state w.
Proof.
  intros Hid Hpage Hentry Htotal. apply state_ext.
  - rewrite selectedIds_deselectRow, selectedIds_selectRow. set_solver.
  - apply map_eq. intros q. rewrite lookup_pages_deselectRow.
    case_decide as Hq.
    + subst q. rewrite lookup_pages_selectRow, decide_True by done.
      assert (({[id]} ∪ getPageSelections p (state w)) ∖ {[id]}
              = getPageSelections p (state w)) as -> by set_solver.
      unfold getPageSelections.
      destruct (pageSelections (state w) !! p) as [X|] eqn:EX; simpl.
      * rewrite decide_False; [done|]. intros ->. done.
      * by rewrite decide_True.
    + by rewrite lookup_pages_selectRow, decide_False.
  - rewrite totalSelected_deselectRow, selectedIds_deselectRow,
      selectedIds_selectRow.
    unfold total_is_size, getTotalSelected in Htotal.
    rewrite Htotal. do 2 f_equal. set_solver.
  - by rewrite lastBulkSelection_deselectRow, lastBulkSelection_selectRow.
Qed.

Lemma selectRow_then_deselectRow_witness :
  let w := run_calls (fresh empty_storage) [SelectRow 0 1 5] in
  state (deselectRow 2 1 6 (selectRow 1 1 6 w)) = state w.
Proof.
  apply (selectRow_then_deselectRow 1 2 1 6
           (run_calls (fresh empty_storage) [SelectRow 0 1 5])).
  - compute_done.
  - compute_done.
  - by vm_compute.
  - by vm_compute.
Defined.

(** ** Selecting and deselecting a page *)

(** X4. [selectAllOnPage(p, ids)] followed by [deselectAllOnPage(p)]
    removes the entry of page [p] and deselects every id of the list
    globally, also the ids that were selected before, on whatever page. *)
Theorem selectAll_then_deselectAll now now' p ids w :
  let s' := state (deselectAllOnPage now' p (selectAllOnPage now p ids w)) in
  selectedIds s' = selectedIds (state w) ∖ list_to_set ids ∧
  pageSelections s' = delete p (pageSelections (state w)) ∧
  (∀ id, id ∈ ids → isRowSelected id s' = false).
Proof.
  cbv zeta.
  assert (selectedIds (state (deselectAllOnPage now' p (selectAllOnPage now p ids w)))
          = selectedIds (state w) ∖ list_to_set ids) as Hids.
  { rewrite selectedIds_deselectAllOnPage, selectedIds_selectAllOnPage.
    unfold getPageSelections.
    rewrite lookup_pages_selectAllOnPage, decide_True by done. simpl.
    set_solver. }
  split; [done|]. split.
  - rewrite pageSelections_deselectAllOnPage, pageSelections_selectAllOnPage.
    apply delete_insert_eq.
  - intros id Hin. unfold isRowSelected. apply bool_decide_eq_false.
    rewrite Hids. set_solver.
Qed.

(** ** Reading records *)

Lemma new_Set_number_array l :
  Dyn.new_Set (Some (JArr (JNum <$> l))) = Returns (list_to_set l).
Proof. cbn [Dyn.new_Set]. by rewrite traverse_as_number. Qed.

Lemma traverse_restore_typed (l : list (Z * list Z)) :
  traverse restore_entry
    ((λ e, (JS.Number_toString e.1, JArr (JNum <$> e.2))) <$> l)
  = Returns ((λ e, (e.1, list_to_set e.2)) <$> l).
Proof.
  induction l as [|[k ids] l IH]; [done|].
  cbn [fmap list_fmap traverse]. refold_fmap. rewrite IH.
  unfold restore_entry. cbn [fst snd].
  rewrite JSFacts.parseInt_Number_toString, new_Set_number_array. done.
Qed.

Lemma new_Map_of_record (m : gmap Z (list Z)) :
  Dyn.new_Map ((λ e, (e.1, list_to_set e.2)) <$> map_to_list m)
  = list_to_set <$> m.
Proof.
  unfold Dyn.new_Map. rewrite foldl_insert_entries.
  - rewrite (right_id_L ∅ (∪)).
    rewrite (list_fmap_ext _ (prod_map id list_to_set) (map_to_list m))
      by (by intros ? [??] ?).
    by rewrite list_to_map_fmap, list_to_map_to_list.
  - rewrite <- list_fmap_compose.
    rewrite (list_fmap_ext _ fst (map_to_list m)) by (by intros ? [??] ?).
    apply NoDup_fst_map_to_list.
Qed.

(** X5. A well-typed record read within the expiry window is decoded
    field by field: the arrays become sets (duplicates collapse), the
    page keys become numbers again, and [totalSelected] is taken as
    stored, whatever the number of ids; no bulk metadata comes back and
    the entry stays in storage. *)
Theorem load_typed_record now data quota :
  now - Stored.timestamp data ≤ expiryTime →
  new_SelectionManager now
    {| item := Some (Parsed (record_json data)); quota_exceeded := quota |}
  = Some {| state :=
              {| selectedIds := list_to_set (Stored.selectedIds data);
                 pageSelections := list_to_set <$> Stored.pageSelections data;
                 totalSelected := Stored.totalSelected data;
                 lastBulkSelection := None |};
            storage := {| item := Some (Parsed (record_json data));
                          quota_exceeded := quota |} |}.
Proof.
  intros Hfresh. unfold new_SelectionManager, loadFromStorage.
  cbn [item storage].
  change (Dyn.get (record_json data) "timestamp")
    with (Returns (A:=option json) (Some (JNum (Stored.timestamp data)))).
  cbn [mbind outcome_bind Dyn.toNumber expired].
  rewrite bool_decide_eq_false_2 by lia.
  change (Dyn.get (record_json data) "selectedIds")
    with (Returns (A:=option json)
            (Some (JArr (JNum <$> Stored.selectedIds data)))).
  cbn [mbind outcome_bind]. rewrite new_Set_number_array.
  change (Dyn.get (record_json data) "pageSelections")
    with (Returns (A:=option json)
            (Some (JObj ((λ e, (JS.Number_toString e.1, JArr (JNum <$> e.2)))
                           <$> map_to_list (Stored.pageSelections data))))).
  cbn [mbind outcome_bind Dyn.Object_entries].
  rewrite traverse_restore_typed.
  change (Dyn.get (record_json data) "totalSelected")
    with (Returns (A:=option json) (Some (JNum (Stored.totalSelected data)))).
  cbn [mbind outcome_bind from_option Dyn.as_number].
  by rewrite new_Map_of_record.
Qed.

Lemma load_typed_record_witness :
  new_SelectionManager 2000
    {| item := Some (Parsed (record_json sample_record)); quota_exceeded := false |}
  = Some {| state :=
              {| selectedIds := list_to_set (Stored.selectedIds sample_record);
                 pageSelections := list_to_set <$> Stored.pageSelections sample_record;
                 totalSelected := Stored.totalSelected sample_record;
                 lastBulkSelection := None |};
            storage := {| item := Some (Parsed (record_json sample_record));
                          quota_exceeded := false |} |}.
Proof.
  apply (load_typed_record 2000 sample_record false). by vm_compute.
Defined.

(** X6. A record whose timestamp is a number older than the expiry window
    is discarded without looking at anything else in it: the manager
    starts empty and the entry is removed. *)
Theorem expired_record_discarded now data t quota :
  Dyn.get data "timestamp" = Returns (Some (JNum t)) →
  now - t > expiryTime →
  new_SelectionManager now
    {| item := Some (Parsed data); quota_exceeded := quota |}
  = Some {| state := empty_state;
            storage := {| item := None; quota_exceeded := quota |} |}.
Proof.
  intros Hts Hold. unfold new_SelectionManager, loadFromStorage.
  cbn [item storage]. rewrite Hts.
  cbn [mbind outcome_bind Dyn.toNumber expired].
  by rewrite bool_decide_eq_true_2 by lia.
Qed.

Lemma expired_record_discarded_witness :
  new_SelectionManager (4000 + 86400001)
    {| item := Some (Parsed truncated_record); quota_exceeded := false |}
  = Some {| state := empty_state;
            storage := {| item := None; quota_exceeded := false |} |}.
Proof.
  apply (expired_record_discarded (4000 + 86400001) truncated_record 4000 false).
  - reflexivity.
  - by vm_compute.
Defined.

(** ** Clearing *)

(** X7. [clearAllSelections] empties the manager: no id is selected, the
    statistics are zero, the bulk metadata is gone; and, when storage
    accepts the write, a manager built later from what it stored starts
    empty, however much later. *)
Theorem clearAllSelections_clears now w :
  quota_exceeded (storage w) = false →
  let w' := clearAllSelections now w in
  state w' = empty_state ∧
  (∀ id, isRowSelected id (state w') = false) ∧
  getSelectionStats (state w')
  = {| stats_totalSelected := 0; pagesWithSelections := 0%nat;
       stats_lastBulkSelection := None |} ∧
  ∀ later, ∃ w'', new_SelectionManager later (storage w') = Some w'' ∧
                  state w'' = empty_state.
Proof.
  intros Hquota. cbv zeta. rewrite state_clearAllSelections.
  split; [done|]. split; [done|]. split; [done|].
  intros later. unfold clearAllSelections.
  rewrite storage_saveToStorage by done. cbn [state set_state].
  destruct (decide (later - now ≤ expiryTime)) as [Hin|Hout].
  - rewrite load_saved_record by done. by eexists.
  - rewrite (expired_record_discarded later _ now) by (done || lia).
    by eexists.
Qed.

Lemma clearAllSelections_clears_witness :
  let w' := clearAllSelections 50 (run_calls (fresh empty_storage) sample_calls) in
  state w' = empty_state ∧
  (∀ id, isRowSelected id (state w') = false) ∧
  getSelectionStats (state w')
  = {| stats_totalSelected := 0; pagesWithSelections := 0%nat;
       stats_lastBulkSelection := None |} ∧
  ∀ later, ∃ w'', new_SelectionManager later (storage w') = Some w'' ∧
                  state w'' = empty_state.
Proof.
  apply (clearAllSelections_clears 50
           (run_calls (fresh empty_storage) sample_calls)).
  by vm_compute.
Defined.

(** ** Export and import *)

Lemma mapM_import_entries (l : list (Z * list Z)) :
  mapM (λ e : string * list Z,
          page ← JS.parseInt e.1; Some (page, list_to_set (C:=gset Z) e.2))
       ((λ e, (JS.Number_toString e.1, e.2)) <$> l)
  = Some ((λ e, (e.1, list_to_set e.2)) <$> l).
Proof.
  induction l as [|[k ids] l IH]; [done|].
  cbn [fmap list_fmap mapM]. refold_fmap. rewrite IH. cbn [fst snd].
  by rewrite JSFacts.parseInt_Number_toString.
Qed.

Lemma importState_state now data w :
  importState now data w
  = Some (saveToStorage now
            (set_state (λ s,
               {| selectedIds := list_to_set (Stored.selectedIds data);
                  pageSelections := list_to_set <$> Stored.pageSelections data;
                  totalSelected := Stored.totalSelected data;
                  lastBulkSelection := lastBulkSelection s |}) w)).
Proof.
  unfold importState, Object_entries_record.
  rewrite mapM_import_entries. cbn [mbind option_bind].
  by rewrite new_Map_of_record.
Qed.

(** X8. [importState] never fails on a well-typed record and installs it
    as it is: the arrays as sets, [totalSelected] as given (it is not
    recomputed), [lastBulkSelection] untouched; and it saves. *)
Theorem importState_installs now data w :
  ∃ w', importState now data w = Some w' ∧
        selectedIds (state w') = list_to_set (Stored.selectedIds data) ∧
        pageSelections (state w') = list_to_set <$> Stored.pageSelections data ∧
        getTotalSelected (state w') = Stored.totalSelected data ∧
        lastBulkSelection (state w') = lastBulkSelection (state w) ∧
        (quota_exceeded (storage w) = false →
         item (storage w') = Some (Parsed (dataToStore now (state w')))).
Proof.
  rewrite importState_state. eexists. split; [done|].
  rewrite state_saveToStorage. cbn [state set_state selectedIds pageSelections
    getTotalSelected totalSelected lastBulkSelection].
  repeat split. intros Hquota. by rewrite item_saveToStorage.
Qed.


(** ** Every call saves *)

Lemma storage_set_state f w : storage (set_state f w) = storage w.
Proof. done. Qed.

Lemma storage_of_saved now w :
  quota_exceeded (storage w) = false →
  storage (saveToStorage now w)
  = {| item := Some (Parsed (dataToStore now (state (saveToStorage now w))));
       quota_exceeded := false |}.
Proof. intros Hq. by rewrite state_saveToStorage, storage_saveToStorage. Qed.

Lemma step_saves w c :
  quota_exceeded (storage w) = false → ¬ rejected c →
  ∃ t, storage (step w c)
       = {| item := Some (Parsed (dataToStore t (state (step w c))));
            quota_exceeded := false |}.
Proof.
  intros Hquota Hc.
  destruct c as [now p id|now p id|now p ids|now p|clk p n f|now]; simpl.
  - eexists. by apply storage_of_saved.
  - eexists. by apply storage_of_saved.
  - eexists. by apply storage_of_saved.
  - eexists. by apply storage_of_saved.
  - rewrite bulkSelect_unfold.
    destruct (_ || _) eqn:Hguard.
    { exfalso. apply Hc. simpl.
      unfold out_of_range, SELECTION_CONFIG.MAX_BULK_SELECTION in *.
      apply orb_true_iff in Hguard.
      destruct n as [n|b|]; simpl in Hguard;
        destruct Hguard as [H|H]; try done;
        apply bool_decide_eq_true in H; lia. }
    unfold performBulkSelection. cbn [fst world_after world].
    eexists. apply storage_of_saved. by rewrite fetch_loop_quota.
  - eexists. by apply storage_of_saved.
Qed.

(** X10. With a storage that accepts writes, every call that does not
    throw leaves in storage the record of the state it produced, and a
    manager built from it within the expiry window has the same
    [selectedIds], [pageSelections] and [totalSelected]. *)
Theorem every_call_can_be_reloaded w c :
  quota_exceeded (storage w) = false →
  ¬ rejected c →
  ∃ t, item (storage (step w c))
       = Some (Parsed (dataToStore t (state (step w c)))) ∧
       ∀ later, later - t ≤ expiryTime →
         ∃ w', new_SelectionManager later (storage (step w c)) = Some w' ∧
               selectedIds (state w') = selectedIds (state (step w c)) ∧
               pageSelections (state w') = pageSelections (state (step w c)) ∧
               getTotalSelected (state w') = getTotalSelected (state (step w c)).
Proof.
  intros Hquota Hc. destruct (step_saves w c Hquota Hc) as [t Ht].
  exists t. rewrite Ht. split; [done|].
  intros later Hlater. rewrite load_saved_record by done. by eexists.
Qed.

Lemma every_call_can_be_reloaded_witness :
  let w := fresh empty_storage in
  let c := BulkSelect sample_clock 1 (Int 7) sample_fetcher in
  ∃ t, item (storage (step w c))
       = Some (Parsed (dataToStore t (state (step w c)))) ∧
       ∀ later, later - t ≤ expiryTime →
         ∃ w', new_SelectionManager later (storage (step w c)) = Some w' ∧
               selectedIds (state w') = selectedIds (state (step w c)) ∧
               pageSelections (state w') = pageSelections (state (step w c)) ∧
               getTotalSelected (state w') = getTotalSelected (state (step w c)).
Proof.
  apply (every_call_can_be_reloaded (fresh empty_storage)
           (BulkSelect sample_clock 1 (Int 7) sample_fetcher)).
  - reflexivity.
  - unfold rejected, out_of_range, SELECTION_CONFIG.MAX_BULK_SELECTION. lia.
Defined.

(** ** Storage that refuses writes *)

Lemma saveToStorage_refused now w :
  quota_exceeded (storage w) = true → saveToStorage now w = w.
Proof. intros Hq. unfold saveToStorage, setItem. by rewrite Hq. Qed.

Lemma step_storage_refused w c :
  quota_exceeded (storage w) = true → storage (step w c) = storage w.
Proof.
  intros Hquota.
  destruct c as [now p id|now p id|now p ids|now p|clk p n f|now]; simpl;
    try (unfold selectRow, deselectRow, selectAllOnPage, deselectAllOnPage,
           clearAllSelections; by rewrite saveToStorage_refused).
  rewrite bulkSelect_unfold. destruct (_ || _); [done|].
  unfold performBulkSelection. cbn [fst world_after world].
  set (w0 := set_state _ w).
  assert (storage (world (fetch_loop (turns_needed n p) (λ k, clk (S k)) f n p w0))
          = storage w) as Hloop.
  { apply (fetch_loop_preserves f (λ w', storage w' = storage w)); [|done].
    intros now q ids w' Hw'. unfold selectAllOnPage.
    rewrite saveToStorage_refused; [done|]. cbn [storage set_state].
    by rewrite Hw'. }
  rewrite saveToStorage_refused; [done|]. by rewrite Hloop.
Qed.

(** X11. When storage refuses writes, no sequence of calls changes what
    is stored (and none fails). *)
Theorem refused_storage_is_left_alone w calls :
  quota_exceeded (storage w) = true →
  storage (run_calls w calls) = storage w.
Proof.
  revert w. induction calls as [|c calls IH]; intros w Hquota; [done|].
  simpl. rewrite IH; rewrite step_storage_refused; done.
Qed.

Lemma refused_storage_is_left_alone_witness :
  let w := fresh {| item := Some (Unparseable "old"); quota_exceeded := true |} in
  storage (run_calls w sample_calls) = storage w.
Proof.
  apply (refused_storage_is_left_alone
           (fresh {| item := Some (Unparseable "old"); quota_exceeded := true |})
           sample_calls).
  reflexivity.
Defined.

(** ** The selection never depends on storage *)

Lemma state_selectRow_indep now p id w w' :
  state w = state w' → state (selectRow now p id w) = state (selectRow now p id w').
Proof.
  intros E. unfold selectRow. rewrite !state_saveToStorage.
  cbn [state set_state]. by rewrite E.
Qed.

Lemma state_deselectRow_indep now p id w w' :
  state w = state w' →
  state (deselectRow now p id w) = state (deselectRow now p id w').
Proof.
  intros E. unfold deselectRow. rewrite !state_saveToStorage.
  cbn [state set_state]. by rewrite E.
Qed.

Lemma state_selectAllOnPage_indep now now' p ids w w' :
  state w = state w' →
  state (selectAllOnPage now p ids w) = state (selectAllOnPage now' p ids w').
Proof.
  intros E. unfold selectAllOnPage. rewrite !state_saveToStorage.
  cbn [state set_state]. by rewrite E.
Qed.

Lemma state_deselectAllOnPage_indep now p w w' :
  state w = state w' →
  state (deselectAllOnPage now p w) = state (deselectAllOnPage now p w').
Proof.
  intros E. unfold deselectAllOnPage. rewrite !state_saveToStorage.
  cbn [state set_state]. by rewrite E.
Qed.

(** Two runs of the loop from worlds with the same state go the same way,
    whatever the storages and the clocks. *)
Lemma fetch_loop_indep f fuel clk clk' rem page w w' :
  state w = state w' →
  let r := fetch_loop fuel clk f rem page w in
  let r' := fetch_loop fuel clk' f rem page w' in
  state (world r) = state (world r') ∧ stop r = stop r' ∧
  fetched r = fetched r' ∧ picked r = picked r'.
Proof.
  revert clk clk' rem page w w'.
  induction fuel as [|fuel IH]; intros clk clk' rem page w w' E; simpl.
  - by destruct (Num.gt rem 0).
  - destruct (Num.gt rem 0); [|done].
    destruct (f page) as [pageIds|error]; [|done].
    case_bool_decide; [done|].
    set (sel := JS.slice0 (Num.truncate rem) pageIds).
    pose proof (state_selectAllOnPage_indep (clk 0%nat) (clk' 0%nat) page sel
                  w w' E) as E'.
    case_bool_decide; [done|].
    destruct (IH (λ n, clk (S n)) (λ n, clk' (S n))
                (Num.sub rem (Z.of_nat (length sel))) (page + 1) _ _ E')
      as (H1 & H2 & H3 & H4).
    simpl. by rewrite H2, H3, H4.
Qed.

Lemma state_step_indep w w' c :
  state w = state w' → state (step w c) = state (step w' c).
Proof.
  intros E.
  destruct c as [now p id|now p id|now p ids|now p|clk p n f|now]; simpl.
  - by apply state_selectRow_indep.
  - by apply state_deselectRow_indep.
  - by apply state_selectAllOnPage_indep.
  - by apply state_deselectAllOnPage_indep.
  - rewrite !bulkSelect_unfold. destruct (_ || _); [done|].
    unfold performBulkSelection. cbn [fst world_after world].
    rewrite !state_saveToStorage.
    apply fetch_loop_indep. cbn [state set_state]. by rewrite E.
  - by rewrite !state_clearAllSelections.
Qed.

(** X12. The selection state after a sequence of calls depends on the
    state before and on the calls only: never on what storage holds or
    on whether it accepts writes. *)
Theorem state_does_not_depend_on_storage w w' calls :
  state w = state w' →
  state (run_calls w calls) = state (run_calls w' calls).
Proof.
  revert w w'. induction calls as [|c calls IH]; intros w w' E; [done|].
  simpl. apply IH. by apply state_step_indep.
Qed.

Lemma state_does_not_depend_on_storage_witness :
  state (run_calls (fresh empty_storage) sample_calls)
  = state (run_calls
             (fresh {| item := Some (Unparseable "old"); quota_exceeded := true |})
             sample_calls).
Proof.
  apply (state_does_not_depend_on_storage (fresh empty_storage)
           (fresh {| item := Some (Unparseable "old"); quota_exceeded := true |})
           sample_calls).
  reflexivity.
Defined.

(** ** More on bulk selection *)

Lemma size_list_to_set_le (l : list Z) :
  (size (list_to_set (C:=gset Z) l) ≤ length l)%nat.
Proof.
  induction l as [|a l IH].
  - by rewrite list_to_set_nil, size_empty.
  - rewrite list_to_set_cons, size_union_alt, size_singleton.
    assert (size (list_to_set (C:=gset Z) l ∖ {[a]})
            ≤ size (list_to_set (C:=gset Z) l))%nat
      by (apply subseteq_size; set_solver).
    simpl. lia.
Qed.

Lemma size_selectAllOnPage now p ids w :
  (size (selectedIds (state (selectAllOnPage now p ids w)))
   ≤ size (selectedIds (state w)) + length ids)%nat.
Proof.
  rewrite selectedIds_selectAllOnPage, size_union_alt.
  pose proof (size_list_to_set_le ids).
  assert (size (selectedIds (state w) ∖ list_to_set ids)
          ≤ size (selectedIds (state w)))%nat
    by (apply subseteq_size; set_solver).
  lia.
Qed.

Lemma fetch_loop_size f fuel clk rem page w :
  let r := fetch_loop fuel clk f rem page w in
  (size (selectedIds (state (world r)))
   ≤ size (selectedIds (state w)) + picked_total r)%nat.
Proof.
  revert fuel clk rem page w.
  apply (fetch_loop_ind f
           (λ _ _ _ _ w r,
              (size (selectedIds (state (world r)))
               ≤ size (selectedIds (state w)) + picked_total r)%nat));
    unfold picked_total; simpl; try (intros; lia).
  - intros _ clk rem page w pageIds _ _ _ _.
    pose proof (size_selectAllOnPage (clk 0%nat) page
                  (JS.slice0 (Num.truncate rem) pageIds) w). lia.
  - intros fuel clk rem page w pageIds r _ _ _ _ _ IH. refold_fmap.
    pose proof (size_selectAllOnPage (clk 0%nat) page
                  (JS.slice0 (Num.truncate rem) pageIds) w). lia.
Qed.

(** The loop never hands out more ids than the whole part of the count. *)
Lemma fetch_loop_picked_bound f fuel clk rem page w :
  Z.of_nat (picked_total (fetch_loop fuel clk f rem page w))
  ≤ Z.max 0 (Num.truncate rem).
Proof.
  revert fuel clk rem page w.
  apply (fetch_loop_ind f
           (λ _ _ rem _ _ r,
              Z.of_nat (picked_total r) ≤ Z.max 0 (Num.truncate rem)));
    unfold picked_total; simpl; try (intros; lia).
  - intros _ _ rem _ _ pageIds Hrem _ Hne _.
    pose proof (length_selected rem pageIds Hrem Hne) as Hlen.
    destruct rem as [n|b|]; cbn [Num.truncate Num.gt] in *; [lia| |done].
    apply bool_decide_eq_true in Hrem.
    rewrite bool_decide_eq_false_2 in * by lia. lia.
  - intros fuel clk rem page w pageIds r Hrem _ Hne _ _ IH. refold_fmap.
    pose proof (length_selected rem pageIds Hrem Hne) as Hlen.
    destruct rem as [n|b|]; cbn [Num.truncate Num.gt Num.sub] in *;
      [lia| |done].
    apply bool_decide_eq_true in Hrem.
    rewrite (bool_decide_eq_false_2 (b < 0)) in * by lia.
    rewrite bool_decide_eq_false_2 in IH by lia. lia.
Qed.

(** X13. A bulk selection with an integer count between 1 and 1000 hands
    at most [count] ids to [selectAllOnPage] and so raises the number of
    selected ids by at most [count]. *)
Theorem bulkSelect_selects_at_most_count clk startPage n f w :
  1 ≤ n ≤ SELECTION_CONFIG.MAX_BULK_SELECTION →
  ∃ r, bulkSelect clk startPage (Int n) f w = ReturnsPromise r Fulfilled ∧
       Z.of_nat (picked_total r) ≤ n ∧
       Z.of_nat (size (selectedIds (state (world r))))
       ≤ Z.of_nat (size (selectedIds (state w))) + n.
Proof.
  intros Hn. eexists. split; [by apply bulkSelect_valid|].
  unfold performBulkSelection. cbn [fst world picked].
  set (w0 := set_state _ w).
  pose proof (fetch_loop_picked_bound f (turns_needed (Int n) startPage)
                (λ k, clk (S k)) (Int n) startPage w0) as Hbound.
  pose proof (fetch_loop_size f (turns_needed (Int n) startPage)
                (λ k, clk (S k)) (Int n) startPage w0) as Hsize.
  cbv zeta in Hsize.
  rewrite state_saveToStorage.
  assert (selectedIds (state w0) = selectedIds (state w)) as E by done.
  rewrite E in Hsize. unfold picked_total in *. cbn [picked Num.truncate] in *.
  split; lia.
Qed.

Lemma bulkSelect_selects_at_most_count_witness :
  ∃ r, bulkSelect sample_clock 1 (Int 7) sample_fetcher (fresh empty_storage)
       = ReturnsPromise r Fulfilled ∧
       Z.of_nat (picked_total r) ≤ 7 ∧
       Z.of_nat (size (selectedIds (state (world r))))
       ≤ Z.of_nat (size (selectedIds (state (fresh empty_storage)))) + 7.
Proof.
  apply (bulkSelect_selects_at_most_count sample_clock 1 7 sample_fetcher
           (fresh empty_storage)).
  unfold SELECTION_CONFIG.MAX_BULK_SELECTION. lia.
Defined.

Lemma guard_rejects n :
  Num.le n 0 || Num.gt n SELECTION_CONFIG.MAX_BULK_SELECTION = true
  ↔ out_of_range n.
Proof.
  unfold out_of_range, SELECTION_CONFIG.MAX_BULK_SELECTION.
  rewrite orb_true_iff.
  destruct n as [n|b|]; simpl; rewrite ?bool_decide_eq_true;
    [lia|lia|naive_solver].
Qed.

Lemma bulkSelect_accepted clk p n f w :
  ¬ out_of_range n →
  bulkSelect clk p n f w
  = ReturnsPromise (performBulkSelection clk p n f w).1 Fulfilled.
Proof.
  intros Hn. rewrite bulkSelect_unfold.
  destruct (_ || _) eqn:Hguard; [|done].
  by apply guard_rejects in Hguard.
Qed.

Lemma slice0_prefix (n : Z) (l : list Z) : JS.slice0 n l `prefix_of` l.
Proof.
  unfold JS.slice0. case_bool_decide; eexists; symmetry; apply take_drop.
Qed.

(** What the loop does to the page entries. *)
Lemma fetch_loop_pages f fuel clk rem page w :
  let r := fetch_loop fuel clk f rem page w in
  (∀ q ids, (q, ids) ∈ picked r →
     pageSelections (state (world r)) !! q = Some (list_to_set ids) ∧
     ∃ pageIds, f q = Resolved pageIds ∧ ids `prefix_of` pageIds) ∧
  (∀ q, q ∉ (picked r).*1 →
     pageSelections (state (world r)) !! q = pageSelections (state w) !! q).
Proof.
  revert fuel clk rem page w.
  apply (fetch_loop_ind f
           (λ _ _ _ _ w r,
              (∀ q ids, (q, ids) ∈ picked r →
                 pageSelections (state (world r)) !! q = Some (list_to_set ids) ∧
                 ∃ pageIds, f q = Resolved pageIds ∧ ids `prefix_of` pageIds) ∧
              (∀ q, q ∉ (picked r).*1 →
                 pageSelections (state (world r)) !! q
                 = pageSelections (state w) !! q)));
    simpl; try (intros; split; [|done]; intros ?? Hin;
                by apply elem_of_nil in Hin).
  - intros _ clk rem page w pageIds _ E _ _. split.
    + intros q ids Hin. apply list_elem_of_singleton in Hin. simplify_eq.
      rewrite lookup_pages_selectAllOnPage, decide_True by done.
      split; [done|]. eexists. split; [done|]. apply slice0_prefix.
    + intros q Hq. rewrite lookup_pages_selectAllOnPage.
      rewrite decide_False; [done|]. set_solver.
  - intros fuel clk rem page w pageIds r _ E _ _ Hr [IH1 IH2]. split.
    + intros q ids Hin. apply elem_of_cons in Hin as [Heq|Hin]; [|by apply IH1].
      simplify_eq. split; [|eexists; split; [done|apply slice0_prefix]].
      rewrite IH2.
      * by rewrite lookup_pages_selectAllOnPage, decide_True.
      * intros Hin. apply list_elem_of_fmap in Hin as ([q ids] & Hq & Hin).
        apply fetch_loop_picked_pages in Hin. simpl in Hq. lia.
    + intros q Hq. apply not_elem_of_cons in Hq as [Hne Hq]. rewrite IH2 by done.
      by rewrite lookup_pages_selectAllOnPage, decide_False.
Qed.

(** X14. What a bulk selection does to [pageSelections]: on every page
    it selected on, the page's set becomes exactly the ids taken, a prefix
    of the ids the fetcher returned for that page (whatever was selected
    on that page before is dropped from the page's set); every other
    page's entry is as it was. *)
Theorem bulkSelect_page_entries clk startPage n f w :
  ¬ out_of_range n →
  ∃ r, bulkSelect clk startPage n f w = ReturnsPromise r Fulfilled ∧
       (∀ q ids, (q, ids) ∈ picked r →
          pageSelections (state (world r)) !! q = Some (list_to_set ids) ∧
          ∃ pageIds, f q = Resolved pageIds ∧ ids `prefix_of` pageIds) ∧
       (∀ q, q ∉ (picked r).*1 →
          pageSelections (state (world r)) !! q
          = pageSelections (state w) !! q).
Proof.
  intros Hn. eexists. split; [by apply bulkSelect_accepted|].
  unfold performBulkSelection. cbn [fst world picked].
  rewrite state_saveToStorage. set (w0 := set_state _ w).
  exact (fetch_loop_pages f (turns_needed n startPage) (λ k, clk (S k)) n
           startPage w0).
Qed.

Lemma bulkSelect_page_entries_witness :
  let w := run_calls (fresh empty_storage) [SelectRow 0 1 5; SelectRow 0 9 90] in
  ∃ r, bulkSelect sample_clock 1 (Int 3) sample_fetcher w
       = ReturnsPromise r Fulfilled ∧
       (∀ q ids, (q, ids) ∈ picked r →
          pageSelections (state (world r)) !! q = Some (list_to_set ids) ∧
          ∃ pageIds, sample_fetcher q = Resolved pageIds ∧ ids `prefix_of` pageIds) ∧
       (∀ q, q ∉ (picked r).*1 →
          pageSelections (state (world r)) !! q
          = pageSelections (state w) !! q).
Proof.
  apply (bulkSelect_page_entries sample_clock 1 (Int 3) sample_fetcher
           (run_calls (fresh empty_storage) [SelectRow 0 1 5; SelectRow 0 9 90])).
  unfold out_of_range, SELECTION_CONFIG.MAX_BULK_SELECTION. lia.
Defined.

(** X15. Whenever [bulkSelect] does not throw it records the count, the
    start page and the time it started in [lastBulkSelection]: also when
    the first fetch fails or finds nothing. *)
Theorem bulkSelect_records_metadata clk startPage n f w :
  ¬ out_of_range n →
  lastBulkSelection (state (step w (BulkSelect clk startPage n f)))
  = Some {| count := n; startPage := startPage; timestamp := clk 0%nat |}.
Proof.
  intros Hn. simpl. rewrite bulkSelect_accepted by done.
  unfold performBulkSelection. cbn [fst world_after world].
  by rewrite state_saveToStorage, fetch_loop_lastBulkSelection.
Qed.

Lemma bulkSelect_records_metadata_witness :
  lastBulkSelection
    (state (step (fresh empty_storage)
              (BulkSelect sample_clock 4 (Int 9) (λ _, Rejected "offline"))))
  = Some {| count := Int 9; startPage := 4; timestamp := sample_clock 0%nat |}.
Proof.
  apply (bulkSelect_records_metadata sample_clock 4 (Int 9)
           (λ _, Rejected "offline") (fresh empty_storage)).
  unfold out_of_range, SELECTION_CONFIG.MAX_BULK_SELECTION. lia.
Defined.

(** * Properties of the hooks *)

Lemma getPageSelections_selectRow now p id w q :
  getPageSelections q (state (selectRow now p id w))
  = if decide (q = p) then {[id]} ∪ getPageSelections p (state w)
    else getPageSelections q (state w).
Proof.
  unfold getPageSelections at 1. rewrite lookup_pages_selectRow.
  by case_decide.
Qed.

(** X16. Selecting a row through [useSelectionWithPage(currentPage)]
    records the id twice: in the current page's set and in the set of
    page 1.  The row is selected and the count shown is the number of
    selected ids. *)
Theorem hook_selectRow_records_two_pages currentPage now now' artwork u :
  let u' := useSelectionWithPage.selectRow currentPage now now' artwork u in
  useSelection.isRowSelected artwork u' = true ∧
  Artwork.id artwork ∈ useSelectionWithPage.getPageSelections currentPage u' ∧
  Artwork.id artwork ∈ useSelectionWithPage.getPageSelections 1 u' ∧
  selectedCount (view u') = Z.of_nat (size (selectedIds (state (manager u')))).
Proof.
  cbv zeta.
  unfold useSelectionWithPage.selectRow, useSelection.selectRow,
    useSelection.isRowSelected, useSelectionWithPage.getPageSelections,
    refresh_count, on_manager, setSelectedCount.
  cbn [manager view selectedCount].
  set (w1 := selectRow now currentPage (Artwork.id artwork) (manager u)).
  split; [|split; [|split]].
  - unfold isRowSelected. apply bool_decide_eq_true.
    rewrite selectedIds_selectRow. set_solver.
  - rewrite getPageSelections_selectRow. case_decide; [set_solver|].
    unfold w1. rewrite getPageSelections_selectRow, decide_True by done.
    set_solver.
  - rewrite getPageSelections_selectRow, decide_True by done. set_solver.
  - unfold getTotalSelected. apply totalSelected_selectRow.
Qed.

(** X17. [deselectAllOnCurrentPage] does not stop at the current page:
    after [deselectAllOnPage(currentPage)] it calls the base hook's
    [deselectAll], which clears the manager.  No id stays selected on any
    page, the bulk metadata is gone and the count shown is 0. *)
Theorem hook_deselectAllOnCurrentPage_clears_everything currentPage now now' u :
  let u' := useSelectionWithPage.deselectAllOnCurrentPage currentPage now now' u in
  state (manager u') = empty_state ∧
  (∀ artwork, useSelection.isRowSelected artwork u' = false) ∧
  (∀ page, useSelectionWithPage.getPageSelections page u' = ∅) ∧
  selectedCount (view u') = 0 ∧ selectedRows (view u') = [].
Proof.
  cbv zeta.
  unfold useSelectionWithPage.deselectAllOnCurrentPage, useSelection.deselectAll,
    useSelection.isRowSelected, useSelectionWithPage.getPageSelections,
    on_manager, setSelectedCount, setSelectedRows.
  cbn [manager view selectedCount selectedRows].
  rewrite state_clearAllSelections. done.
Qed.

(** X18. [selectAllOnCurrentPage(artworks)] replaces two page sets with
    the ids of [artworks]: the current page's and page 1's.  An id that
    was in page 1's set and is not among [artworks] leaves that set and
    stays selected. *)
Theorem hook_selectAllOnCurrentPage_replaces_page_1 currentPage now now' artworks u :
  let ids := Artwork.id <$> artworks in
  let u' := useSelectionWithPage.selectAllOnCurrentPage currentPage now now'
              artworks u in
  useSelectionWithPage.getPageSelections currentPage u' = list_to_set ids ∧
  useSelectionWithPage.getPageSelections 1 u' = list_to_set ids ∧
  selectedIds (state (manager u'))
  = list_to_set ids ∪ selectedIds (state (manager u)) ∧
  (∀ id, id ∈ useSelectionWithPage.getPageSelections 1 u → id ∉ ids →
         (id ∉ useSelectionWithPage.getPageSelections 1 u') ∧
         (id ∈ selectedIds (state (manager u'))
          ↔ id ∈ selectedIds (state (manager u)))).
Proof.
  cbv zeta.
  unfold useSelectionWithPage.selectAllOnCurrentPage, useSelection.selectAll,
    useSelectionWithPage.getPageSelections, refresh_count, on_manager,
    setSelectedCount.
  cbn [manager view].
  set (ids := Artwork.id <$> artworks).
  assert (∀ w q, getPageSelections q (state (selectAllOnPage now' 1 ids
                                               (selectAllOnPage now currentPage ids w)))
                 = if decide (q = 1 ∨ q = currentPage) then list_to_set ids
                   else getPageSelections q (state w)) as Hpages.
  { intros w q. unfold getPageSelections.
    rewrite !lookup_pages_selectAllOnPage.
    repeat case_decide; try done; naive_solver. }
  rewrite !Hpages, !decide_True by auto.
  rewrite !selectedIds_selectAllOnPage.
  split; [done|]. split; [done|]. split; [set_solver|].
  intros id Hold Hnew. rewrite elem_of_list_to_set. set_solver.
Qed.

(** X19. The hook's [bulkSelect] fetches nothing: its page fetcher
    returns the empty list for every page.  A count the manager rejects
    makes the promise reject and changes nothing; any other count leaves
    [selectedIds] and [pageSelections] as they were and only records the
    bulk metadata. *)
Theorem hook_bulkSelect_selects_nothing clk c u :
  let '(u', result) := useSelection.bulkSelect clk c u in
  selectedIds (state (manager u')) = selectedIds (state (manager u)) ∧
  pageSelections (state (manager u')) = pageSelections (state (manager u)) ∧
  (result = BulkRejected c ∧ u' = u ∧ out_of_range c ∨
   result = BulkResolved ∧ ¬ out_of_range c ∧
   lastBulkSelection (state (manager u'))
   = Some {| count := c; startPage := 1; timestamp := clk 0%nat |}).
Proof.
  unfold useSelection.bulkSelect. rewrite bulkSelect_unfold.
  destruct (_ || _) eqn:Hguard.
  - apply guard_rejects in Hguard. split; [done|]. split; [done|]. by left.
  - assert (¬ out_of_range c) as Hc.
    { intros Hc%guard_rejects. congruence. }
    unfold performBulkSelection, refresh_count, on_manager, setSelectedCount.
    cbn [fst world manager view]. rewrite state_saveToStorage.
    assert (∀ fuel clk' w,
              fetch_loop fuel clk' useSelection.getPageData c 1 w
              = if Num.gt c 0 then
                  match fuel with
                  | O => halt OutOfFuel w
                  | S _ => did_fetch 1 (halt (NoMoreData 1) w)
                  end
                else halt CountReached w) as Hloop.
    { intros [|fuel] clk' w; simpl; by destruct (Num.gt c 0). }
    rewrite Hloop.
    assert (∀ r, world (if Num.gt c 0 then
                   match turns_needed c 1 with
                   | O => halt OutOfFuel r
                   | S _ => did_fetch 1 (halt (NoMoreData 1) r)
                   end else halt CountReached r) = r) as ->.
    { intros r. destruct (Num.gt c 0); [|done]. by destruct (turns_needed c 1). }
    split; [done|]. split; [done|]. right. done.
Qed.

(** * Properties of the helpers *)

(** ** [getPageRange] *)

(** X20. For a non-negative number of pages and of visible links,
    [getPageRange] returns a run of consecutive pages in ascending order,
    all between 1 and [totalPages]; their number is the smaller of
    [maxVisible] and [totalPages], whatever the current page; and the run
    contains the current page whenever that is an existing page and at
    least one link is visible. *)
Theorem getPageRange_window currentPage totalPages maxVisible :
  0 ≤ totalPages → 0 ≤ maxVisible →
  let pages := getPageRange currentPage totalPages maxVisible in
  (∃ first, pages = seqZ first (Z.min maxVisible totalPages)) ∧
  length pages = Z.to_nat (Z.min maxVisible totalPages) ∧
  (∀ p, p ∈ pages → 1 ≤ p ≤ totalPages) ∧
  (1 ≤ currentPage ≤ totalPages → 1 ≤ maxVisible → currentPage ∈ pages).
Proof.
  intros Htotal Hmax. cbv zeta. unfold getPageRange.
  assert (0 ≤ maxVisible `div` 2 ∧ 2 * (maxVisible `div` 2) ≤ maxVisible
          ∧ maxVisible < 2 * (maxVisible `div` 2) + 2) as Hhalf.
  { pose proof (Z.div_mod maxVisible 2 ltac:(lia)).
    pose proof (Z.mod_pos_bound maxVisible 2 ltac:(lia)).
    pose proof (Z.div_pos maxVisible 2 ltac:(lia) ltac:(lia)). lia. }
  generalize dependent (maxVisible `div` 2). intros half Hhalf.
  set (start0 := Z.max 1 (currentPage - half)).
  set (end_ := Z.min totalPages (start0 + maxVisible - 1)).
  assert (∀ start,
            start = (if bool_decide (end_ - start0 + 1 < maxVisible)
                     then Z.max 1 (end_ - maxVisible + 1) else start0) →
            end_ - start + 1 = Z.min maxVisible totalPages ∧ 1 ≤ start ∧
            (1 ≤ currentPage ≤ totalPages → 1 ≤ maxVisible →
             start ≤ currentPage ≤ end_)) as Hfacts.
  { intros start ->. unfold end_, start0. case_bool_decide; lia. }
  specialize (Hfacts _ eq_refl) as (Hlen & Hstart & Hcur).
  rewrite Hlen. split; [by eexists|]. split.
  - rewrite length_seqZ. done.
  - split.
    + intros p Hp. apply elem_of_seqZ in Hp. unfold end_ in *. lia.
    + intros Hin Hvis. apply elem_of_seqZ. specialize (Hcur Hin Hvis). lia.
Qed.

Lemma getPageRange_window_witness :
  let pages := getPageRange 10 10 5 in
  (∃ first, pages = seqZ first (Z.min 5 10)) ∧
  length pages = Z.to_nat (Z.min 5 10) ∧
  (∀ p, p ∈ pages → 1 ≤ p ≤ 10) ∧
  (1 ≤ 10 ≤ 10 → 1 ≤ 5 → 10 ∈ pages).
Proof. apply (getPageRange_window 10 10 5); lia. Defined.

(** ** [truncateText] *)

Lemma string_length_append (s t : string) :
  String.length (s +:+ t) = (String.length s + String.length t)%nat.
Proof. induction s as [|c s IH]; simpl; [done|]. by rewrite IH. Qed.

Lemma string_length_substring0 (n : nat) (s : string) :
  String.length (substring 0 n s) = (n `min` String.length s)%nat.
Proof.
  revert s. induction n as [|n IH]; intros [|c s]; simpl; try done.
  by rewrite IH.
Qed.

Lemma prefix_substring0 (n : nat) (s : string) :
  String.prefix (substring 0 n s) s = true.
Proof.
  revert s. induction n as [|n IH]; intros [|c s]; simpl; try done.
  destruct (ascii_dec c c); [apply IH|done].
Qed.

(** X21. With room for the ellipsis ([maxLength >= 3]) the result of
    [truncateText] never has more than [maxLength] characters; a text that
    is too long is cut to a prefix of itself followed by three dots, of
    exactly [maxLength] characters. *)
Theorem truncateText_fits text maxLength :
  3 ≤ maxLength →
  Z.of_nat (String.length (truncateText text maxLength)) ≤ maxLength ∧
  (maxLength < Z.of_nat (String.length text) →
   ∃ head, truncateText text maxLength = head +:+ "..." ∧
           String.prefix head text = true ∧
           Z.of_nat (String.length (truncateText text maxLength)) = maxLength).
Proof.
  intros Hmax. unfold truncateText. case_bool_decide as Hshort.
  - split; [done|]. lia.
  - assert (Z.of_nat (String.length
                        (substring 0 (Z.to_nat (maxLength - 3)) text +:+ "..."))
            = maxLength) as Hlen.
    { rewrite string_length_append, string_length_substring0. simpl. lia. }
    split; [lia|]. intros _. eexists. split; [done|].
    split; [apply prefix_substring0|done].
Qed.

Lemma truncateText_fits_witness :
  Z.of_nat (String.length (truncateText "Water Lilies" 8)) ≤ 8 ∧
  (8 < Z.of_nat (String.length "Water Lilies") →
   ∃ head, truncateText "Water Lilies" 8 = head +:+ "..." ∧
           String.prefix head "Water Lilies" = true ∧
           Z.of_nat (String.length (truncateText "Water Lilies" 8)) = 8).
Proof. apply (truncateText_fits "Water Lilies" 8). lia. Defined.

(** X22. [truncateText] is idempotent for every [maxLength]: truncating
    its result again changes nothing, also when [maxLength] is below 3
    and the result is the three dots alone. *)
Theorem truncateText_idempotent text maxLength :
  truncateText (truncateText text maxLength) maxLength
  = truncateText text maxLength.
Proof.
  assert (∀ s, Z.of_nat (String.length s) ≤ maxLength →
               truncateText s maxLength = s)
    as Hkeep.
  { intros s Hs. unfold truncateText. by rewrite bool_decide_eq_true_2. }
  destruct (decide (Z.of_nat (String.length text) ≤ maxLength)) as [Hshort|Hlong].
  { by rewrite !(Hkeep text). }
  assert (truncateText text maxLength
          = substring 0 (Z.to_nat (maxLength - 3)) text +:+ "...") as ->.
  { unfold truncateText. by rewrite bool_decide_eq_false_2. }
  destruct (decide (3 ≤ maxLength)) as [Hmax|Hmax].
  - apply Hkeep.
    rewrite string_length_append, string_length_substring0. simpl. lia.
  - replace (Z.to_nat (maxLength - 3)) with 0%nat by lia.
    assert (∀ s, substring 0 0 s = EmptyString) as Hsub by (by intros []).
    rewrite Hsub. unfold truncateText.
    rewrite bool_decide_eq_false_2 by (simpl; lia).
    replace (Z.to_nat (maxLength - 3)) with 0%nat by lia.
    by rewrite Hsub.
Qed.

(** ** Keys and date ranges *)

Lemma Number_toString_inj a b :
  JS.Number_toString a = JS.Number_toString b → a = b.
Proof.
  intros E. apply (f_equal JS.parseInt) in E.
  rewrite !JSFacts.parseInt_Number_toString in E. congruence.
Qed.

(** X23. Two artworks get the same React key exactly when they have the
    same id. *)
Theorem getArtworkKey_inj a b :
  getArtworkKey a = getArtworkKey b ↔ Artwork.id a = Artwork.id b.
Proof.
  unfold getArtworkKey. split.
  - intros E. simpl in E. simplify_eq. by apply Number_toString_inj.
  - by intros ->.
Qed.

(** ** [areArtworkArraysEqual] *)

Lemma string_compare_trans (s1 s2 s3 : string) :
  String.compare s1 s2 ≠ Gt → String.compare s2 s3 ≠ Gt →
  String.compare s1 s3 ≠ Gt.
Proof.
  revert s2 s3. induction s1 as [|c1 s1 IH]; intros [|c2 s2] [|c3 s3];
    simpl; try done.
  unfold Ascii.compare.
  destruct (N.compare_spec (N_of_ascii c1) (N_of_ascii c2)) as [E12|L12|L12];
    destruct (N.compare_spec (N_of_ascii c2) (N_of_ascii c3)) as [E23|L23|L23];
    try done.
  - rewrite E12, E23, N.compare_refl. apply IH.
  - intros _ _. rewrite E12. by rewrite (proj2 (N.compare_lt_iff _ _) L23).
  - intros _ _. rewrite <- E23. by rewrite (proj2 (N.compare_lt_iff _ _) L12).
  - intros _ _.
    by rewrite (proj2 (N.compare_lt_iff _ _) (N.lt_trans _ _ _ L12 L23)).
Qed.

Lemma string_leb_not_Gt (s1 s2 : string) :
  String.leb s1 s2 = true ↔ String.compare s1 s2 ≠ Gt.
Proof. unfold String.leb. by destruct (String.compare s1 s2). Qed.

#[global] Instance sorts_before_trans : Transitive sorts_before.
Proof.
  intros a b c. unfold sorts_before. rewrite !string_leb_not_Gt.
  apply string_compare_trans.
Qed.

#[global] Instance sorts_before_total : Total sorts_before.
Proof. intros a b. apply String.leb_total. Qed.

#[global] Instance sorts_before_antisymm : AntiSymm (=) sorts_before.
Proof.
  intros a b Hab Hba. apply Number_toString_inj.
  by apply String.leb_antisym.
Qed.

Lemma Array_sort_Sorted ids : Sorted sorts_before (Array_sort ids).
Proof. apply (Sorted_merge_sort sorts_before). Qed.

Lemma Array_sort_Permutation ids : Array_sort ids ≡ₚ ids.
Proof. apply merge_sort_Permutation. Qed.

Lemma every_from_lookup {A} `{EqDecision A} (l1 l2 : list A) (index : nat) :
  every_from index (λ x i, bool_decide (l2 !! i = Some x)) l1 = true ↔
  ∀ k x, l1 !! k = Some x → l2 !! (index + k)%nat = Some x.
Proof.
  revert index. induction l1 as [|y l1 IH]; intros index; simpl.
  - split; [|done]. intros _ k x Hk. by rewrite lookup_nil in Hk.
  - rewrite andb_true_iff, bool_decide_eq_true, IH. split.
    + intros [Hy Hrest] [|k] x Hk; simpl in Hk.
      * simplify_eq. by rewrite Nat.add_0_r.
      * replace (index + S k)%nat with (S index + k)%nat by lia.
        by apply Hrest.
    + intros Hall. split.
      * specialize (Hall 0%nat y eq_refl). by rewrite Nat.add_0_r in Hall.
      * intros k x Hk. specialize (Hall (S k) x Hk).
        by replace (index + S k)%nat with (S index + k)%nat in Hall by lia.
Qed.

Lemma every_from_eq {A} `{EqDecision A} (l1 l2 : list A) :
  length l1 = length l2 →
  every_from 0 (λ x i, bool_decide (l2 !! i = Some x)) l1 = true ↔ l1 = l2.
Proof.
  intros Hlen. rewrite every_from_lookup. split.
  - intros Hall. apply list_eq_same_length with (length l1); [done..|].
    intros i x y Hi Hx Hy. specialize (Hall i x Hx). simpl in Hall. congruence.
  - intros -> k x Hk. done.
Qed.

(** X24. [areArtworkArraysEqual] holds exactly when the two arrays carry
    the same ids with the same multiplicities, in whatever order: the
    default (string) order of [sort] arranges the ids as text, "10" before
    "9", but it arranges both arrays alike. *)
Theorem areArtworkArraysEqual_iff_same_ids arr1 arr2 :
  areArtworkArraysEqual arr1 arr2 = true ↔
  (Artwork.id <$> arr1) ≡ₚ (Artwork.id <$> arr2).
Proof.
  unfold areArtworkArraysEqual. case_bool_decide as Hlen.
  - split; [done|]. intros Hperm. apply Permutation_length in Hperm.
    rewrite !length_fmap in Hperm. done.
  - rewrite every_from_eq; last first.
    { rewrite (Permutation_length (Array_sort_Permutation _)).
      rewrite (Permutation_length (Array_sort_Permutation (_ <$> arr2))).
      by rewrite !length_fmap. }
    split.
    + intros E. rewrite <- (Array_sort_Permutation (_ <$> arr1)), E.
      apply Array_sort_Permutation.
    + intros Hperm.
      apply (Sorted_unique sorts_before); [apply Array_sort_Sorted..|].
      by rewrite !Array_sort_Permutation.
Qed.

(** ** [formatDateRange] *)

Lemma scan_digits_uint_app d acc rest :
  JS.scan_digits (NilEmpty.string_of_uint d +:+ rest) (Some acc)
  = JS.scan_digits rest (Some (uint_value d acc)).
Proof.
  revert acc. induction d; intros acc; simpl NilEmpty.string_of_uint;
    [done|..]; cbn [String.append JS.scan_digits uint_value];
    by rewrite <- IHd.
Qed.

Lemma scan_digits_uint_start_app d rest :
  d ≠ Nil →
  JS.scan_digits (NilEmpty.string_of_uint d +:+ rest) None
  = JS.scan_digits rest (Some (uint_value d 0)).
Proof.
  destruct d; [done|..]; intros _; simpl NilEmpty.string_of_uint;
    cbn [String.append JS.scan_digits uint_value];
    by rewrite <- scan_digits_uint_app.
Qed.

(** [parseInt] reads a numeral back also when a blank and more text
    follow it. *)
Lemma parseInt_Number_toString_blank n rest :
  JS.parseInt (JS.Number_toString n +:+ String " " rest) = Some n.
Proof.
  unfold JS.Number_toString. destruct n as [|p|p]; simpl Z.to_int;
    cbn [NilZero.string_of_int].
  - done.
  - pose proof (DecimalPos.Unsigned.to_uint_nonnil p) as Hnil.
    rewrite JSFacts.string_of_uint_nonnil by done.
    transitivity (JS.scan_digits
                    (NilEmpty.string_of_uint (Pos.to_uint p) +:+ String " " rest)
                    None).
    { by destruct (Pos.to_uint p). }
    rewrite scan_digits_uint_start_app by done.
    cbn [JS.scan_digits]. by rewrite JSFacts.value_to_uint.
  - pose proof (DecimalPos.Unsigned.to_uint_nonnil p) as Hnil.
    rewrite JSFacts.string_of_uint_nonnil by done.
    change (JS.parseInt (String "-" (NilEmpty.string_of_uint (Pos.to_uint p))
                         +:+ String " " rest))
      with (Z.opp <$> JS.scan_digits
              (NilEmpty.string_of_uint (Pos.to_uint p) +:+ String " " rest) None).
    rewrite scan_digits_uint_start_app by done.
    cbn [JS.scan_digits]. by rewrite JSFacts.value_to_uint.
Qed.

Lemma Number_toString_nonempty n : JS.Number_toString n ≠ EmptyString.
Proof.
  intros E. pose proof (JSFacts.parseInt_Number_toString n) as H.
  by rewrite E in H.
Qed.

Lemma or_else_Number_toString n fallback :
  or_else (JS.Number_toString n) fallback = JS.Number_toString n.
Proof.
  unfold or_else. rewrite bool_decide_eq_false_2; [done|].
  apply Number_toString_nonempty.
Qed.

Lemma string_append_cancel_l (s r1 r2 : string) :
  s +:+ r1 = s +:+ r2 → r1 = r2.
Proof. induction s as [|c s IH]; simpl; [done|]. intros [=]. by apply IH. Qed.

Lemma string_append_longer (s r : string) (c : ascii) :
  s ≠ s +:+ String c r.
Proof.
  intros E. apply (f_equal String.length) in E.
  rewrite string_length_append in E. simpl in E. lia.
Qed.

(** X25. [formatDateRange] shows different pairs of dates differently:
    from the text one reads back both years, and which of them is
    missing.  The fallbacks after [||] are never taken for a year, 0
    included, since its numeral is not the empty string. *)
Theorem formatDateRange_inj a b c d :
  formatDateRange a b = formatDateRange c d ↔ a = c ∧ b = d.
Proof.
  split; [|by intros [-> ->]].
  assert (∀ x r, JS.parseInt
                   (from_option (λ n, or_else (JS.Number_toString n) "?") "?" x
                    +:+ String " " r) = x) as Hstart.
  { intros [n|] r; simpl from_option; [|done].
    rewrite or_else_Number_toString. apply parseInt_Number_toString_blank. }
  assert (∀ x, JS.parseInt
                 (from_option (λ n, or_else (JS.Number_toString n) "?") "?" x)
               = x) as Hend.
  { intros [n|]; simpl from_option; [|done].
    rewrite or_else_Number_toString. apply JSFacts.parseInt_Number_toString. }
  assert (∀ x y, formatDateRange x y =
            if bool_decide (x = y)
            then from_option JS.Number_toString "Unknown" x
            else from_option (λ n, or_else (JS.Number_toString n) "?") "?" x
                 +:+ " - " +:+
                 from_option (λ n, or_else (JS.Number_toString n) "?") "?" y)
    as Hshape.
  { intros [n|] [m|]; unfold formatDateRange; try done.
    case_bool_decide; [|done]. simpl. apply or_else_Number_toString. }
  rewrite !Hshape. clear Hshape.
  do 2 case_bool_decide; subst.
  - destruct b as [n|], d as [m|]; simpl; intros E; try done.
    + apply Number_toString_inj in E. by subst.
    + apply (f_equal JS.parseInt) in E.
      by rewrite JSFacts.parseInt_Number_toString in E.
    + apply (f_equal JS.parseInt) in E.
      by rewrite JSFacts.parseInt_Number_toString in E.
  - intros E. exfalso. pose proof (f_equal JS.parseInt E) as Hp.
    change (?s +:+ " - " +:+ ?e) with (s +:+ String " " ("- " +:+ e)) in Hp.
    rewrite Hstart in Hp. destruct b as [n|]; simpl in Hp.
    + rewrite JSFacts.parseInt_Number_toString in Hp. subst c.
      simpl from_option in E. rewrite or_else_Number_toString in E.
      by apply string_append_longer in E.
    + subst c. done.
  - intros E. exfalso. pose proof (f_equal JS.parseInt E) as Hp.
    change (?s +:+ " - " +:+ ?e) with (s +:+ String " " ("- " +:+ e)) in Hp.
    rewrite Hstart in Hp. destruct d as [n|]; simpl in Hp.
    + rewrite JSFacts.parseInt_Number_toString in Hp. subst a.
      simpl from_option in E. rewrite or_else_Number_toString in E.
      symmetry in E. by apply string_append_longer in E.
    + subst a. done.
  - intros E. pose proof (f_equal JS.parseInt E) as Hp.
    change (?s +:+ " - " +:+ ?e) with (s +:+ String " " ("- " +:+ e)) in Hp.
    rewrite !Hstart in Hp. subst c. split; [done|].
    apply string_append_cancel_l in E. simpl in E. simplify_eq.
    apply (f_equal JS.parseInt) in E. by rewrite !Hend in E.
Qed.

(** * Properties of the table's handlers *)

Lemma getPageSelections_deselectRow now p id w q :
  getPageSelections q (state (deselectRow now p id w))
  = if decide (q = p) then getPageSelections p (state w) ∖ {[id]}
    else getPageSelections q (state w).
Proof.
  unfold getPageSelections at 1. rewrite lookup_pages_deselectRow.
  case_decide; [|done]. unfold getPageSelections.
  destruct (pageSelections (state w) !! p) as [X|]; simpl.
  - case_decide as HX; [|done]. by rewrite HX.
  - set_solver.
Qed.

Lemma not_found_iff item l :
  ArtworkTable.not_found item l = true ↔ Artwork.id item ∉ Artwork.id <$> l.
Proof.
  unfold ArtworkTable.not_found.
  destruct (find _ l) as [x|] eqn:E.
  - apply find_some in E as [Hin Hid]. apply bool_decide_eq_true in Hid.
    split; [done|]. intros Hnot. exfalso. apply Hnot.
    rewrite <- Hid. apply list_elem_of_fmap_2. by apply list_elem_of_In.
  - split; [|done]. intros _ Hin.
    apply list_elem_of_fmap in Hin as (x & Hid & Hx).
    apply list_elem_of_In in Hx.
    pose proof (find_none _ _ E x Hx) as Hno. simpl in Hno.
    apply bool_decide_eq_false in Hno. by rewrite Hid in Hno.
Qed.

Lemma ids_of_not_found items l :
  list_to_set (C := gset Z)
    (Artwork.id <$> List.filter (λ item, ArtworkTable.not_found item l) items)
  = list_to_set (Artwork.id <$> items) ∖ list_to_set (Artwork.id <$> l).
Proof.
  apply set_eq. intros x.
  rewrite elem_of_difference, !elem_of_list_to_set, !list_elem_of_fmap.
  split.
  - intros (item & -> & Hin). apply list_elem_of_In, filter_In in Hin as [Hin Hnf].
    apply not_found_iff in Hnf. split; [|by rewrite <- list_elem_of_fmap].
    exists item. split; [done|]. by apply list_elem_of_In.
  - intros [(item & -> & Hin) Hnot]. exists item. split; [done|].
    apply list_elem_of_In, filter_In. split; [by apply list_elem_of_In|].
    apply not_found_iff. by rewrite list_elem_of_fmap.
Qed.

Lemma forEach_selectRow p clk k items u :
  let u' := ArtworkTable.forEach_timed (useSelectionWithPage.selectRow p) clk k
              items u in
  selectedIds (state (manager u'))
  = selectedIds (state (manager u)) ∪ list_to_set (Artwork.id <$> items) ∧
  getPageSelections p (state (manager u'))
  = getPageSelections p (state (manager u)) ∪ list_to_set (Artwork.id <$> items).
Proof.
  cbv zeta. revert k u. induction items as [|item items IH]; intros k u.
  - simpl. set_solver.
  - cbn [ArtworkTable.forEach_timed]. destruct (IH (S (S k))
      (useSelectionWithPage.selectRow p (clk k) (clk (S k)) item u)) as [-> ->].
    unfold useSelectionWithPage.selectRow, useSelection.selectRow,
      refresh_count, on_manager, setSelectedCount.
    cbn [manager view]. rewrite !selectedIds_selectRow.
    rewrite !getPageSelections_selectRow.
    rewrite fmap_cons, list_to_set_cons.
    split; [set_solver|]. case_decide; [subst|]; rewrite ?decide_True by done;
      set_solver.
Qed.

Lemma forEach_deselectRow p clk k items u :
  let u' := ArtworkTable.forEach_timed (useSelectionWithPage.deselectRow p) clk k
              items u in
  selectedIds (state (manager u'))
  = selectedIds (state (manager u)) ∖ list_to_set (Artwork.id <$> items) ∧
  getPageSelections p (state (manager u'))
  = getPageSelections p (state (manager u)) ∖ list_to_set (Artwork.id <$> items).
Proof.
  cbv zeta. revert k u. induction items as [|item items IH]; intros k u.
  - simpl. set_solver.
  - cbn [ArtworkTable.forEach_timed]. destruct (IH (S (S k))
      (useSelectionWithPage.deselectRow p (clk k) (clk (S k)) item u)) as [-> ->].
    unfold useSelectionWithPage.deselectRow, useSelection.deselectRow,
      refresh_count, on_manager, setSelectedCount.
    cbn [manager view]. rewrite !selectedIds_deselectRow.
    rewrite !getPageSelections_deselectRow.
    rewrite fmap_cons, list_to_set_cons.
    split; [set_solver|]. case_decide; [subst|]; rewrite ?decide_True by done;
      set_solver.
Qed.

(** X26. [handleSelectionChange] brings the manager's set for the current
    page in line with the table: if that set held the ids of the rows
    shown as selected, it afterwards holds the ids of the new selection,
    which the table now shows.  Of the ids selected anywhere, exactly the
    rows that were unticked are dropped and the rows that were ticked are
    added. *)
Theorem handleSelectionChange_syncs_page clk value t u :
  let p := ArtworkTable.currentPage t in
  let shown := list_to_set (Artwork.id <$> ArtworkTable.selectedArtworks t) in
  let new := list_to_set (Artwork.id <$> value) in
  getPageSelections p (state (manager u)) = shown →
  let '(t', u') := ArtworkTable.handleSelectionChange clk value t u in
  ArtworkTable.selectedArtworks t' = value ∧
  getPageSelections p (state (manager u')) = new ∧
  selectedIds (state (manager u'))
  = (selectedIds (state (manager u)) ∪ (new ∖ shown)) ∖ (shown ∖ new).
Proof.
  cbv zeta. intros Hpage. unfold ArtworkTable.handleSelectionChange.
  split; [done|].
  match goal with
  | |- context [ArtworkTable.forEach_timed _ clk ?k ?items
                  (ArtworkTable.forEach_timed _ clk 0 ?items0 u)] =>
      destruct (forEach_deselectRow (ArtworkTable.currentPage t) clk k items
                  (ArtworkTable.forEach_timed
                     (useSelectionWithPage.selectRow (ArtworkTable.currentPage t))
                     clk 0 items0 u)) as [-> ->];
      destruct (forEach_selectRow (ArtworkTable.currentPage t) clk 0 items0 u)
        as [-> ->]
  end.
  rewrite !ids_of_not_found, Hpage. split; [|done].
  apply set_eq. intros x.
  destruct (decide (x ∈ (list_to_set (Artwork.id <$> value) : gset Z))),
    (decide (x ∈ (list_to_set
                    (Artwork.id <$> ArtworkTable.selectedArtworks t) : gset Z)));
    set_solver.
Qed.

Lemma handleSelectionChange_syncs_page_witness :
  let value := sample_artwork <$> [2; 3] in
  let p := ArtworkTable.currentPage sample_table in
  let shown :=
    list_to_set (Artwork.id <$> ArtworkTable.selectedArtworks sample_table) in
  let new := list_to_set (Artwork.id <$> value) in
  getPageSelections p (state (manager sample_session)) = shown ∧
  let '(t', u') :=
    ArtworkTable.handleSelectionChange sample_clock value sample_table
      sample_session in
  ArtworkTable.selectedArtworks t' = value ∧
  getPageSelections p (state (manager u')) = new ∧
  selectedIds (state (manager u'))
  = (selectedIds (state (manager sample_session)) ∪ (new ∖ shown)) ∖ (shown ∖ new).
Proof.
  split; [compute_done|].
  apply (handleSelectionChange_syncs_page sample_clock
           (sample_artwork <$> [2; 3]) sample_table sample_session).
  compute_done.
Defined.

(** X27. [handleSelectAll] decides by counting: when as many rows are
    shown selected as the page has rows -- also none of none, on a page
    without rows -- it deselects, and through the hook that clears the
    selections of every page, not of the current page alone. *)
Theorem handleSelectAll_clears_every_page now now' t u :
  length (ArtworkTable.selectedArtworks t) = length (ArtworkTable.artworks t) →
  let '(t', u') := ArtworkTable.handleSelectAll now now' t u in
  ArtworkTable.selectedArtworks t' = [] ∧
  state (manager u') = empty_state ∧
  selectedCount (view u') = 0.
Proof.
  intros Hall. unfold ArtworkTable.handleSelectAll.
  rewrite bool_decide_eq_true_2 by done.
  unfold useSelectionWithPage.deselectAllOnCurrentPage, useSelection.deselectAll,
    on_manager, setSelectedCount, setSelectedRows.
  cbn [manager view selectedCount]. by rewrite state_clearAllSelections.
Qed.

Lemma handleSelectAll_clears_every_page_witness :
  length (ArtworkTable.selectedArtworks empty_table)
  = length (ArtworkTable.artworks empty_table) ∧
  let '(t', u') := ArtworkTable.handleSelectAll 20 21 empty_table sample_session in
  ArtworkTable.selectedArtworks t' = [] ∧
  state (manager u') = empty_state ∧
  selectedCount (view u') = 0.
Proof.
  split; [reflexivity|].
  apply (handleSelectAll_clears_every_page 20 21 empty_table sample_session).
  reflexivity.
Defined.
